(** * statespec: the execution engine [Spec.Run] (spec.go)

    A shallow embedding of the Go package [statespec].  [Spec.Run] is one
    function with two nested [for] loops; every callback of a specification
    (Setup, TearDown, Gen, the CommandFunc closures) acts on the system under
    test, so the embedding threads an explicit world through them, together
    with the state of the random source and a call log.

    Go's [int] is 64 bits wide.  The only arithmetic of [Run] is [i++],
    [cmdRun++], [tries++] (each guarded by a strict comparison with a value
    of type [int]), [rnd.Intn(cmdPerIter) + 1] (at most [cmdPerIter]) and
    [3 * len(s.Commands)] (a slice of 40-byte structs has far fewer than
    2^63 / 3 elements), so none of it wraps and [Z] is exact. *)

From Stdlib Require Import ZArith List String Bool Lia.
Import ListNotations.
Local Open Scope Z_scope.
#[local] Set Warnings "-register-all".

(** ** The random source

    [*rand.Rand] of [math/rand] is outside the repository.  It enters the
    development by its contract: [Intn n] returns a value in [[0, n)] for
    [0 < n] (and panics otherwise; [Run] only calls it with [0 < n], see
    [cmdPerIter_pos] and [pick_in_range]). *)

Class RandSource (R : Type) : Type := {
  (** [rnd.Intn(n)]: the value drawn and the generator afterwards *)
  Intn : Z -> R -> Z * R;
  (** [rand.New(rand.NewSource(seed))] *)
  NewRand : Z -> R;
  Intn_range : forall n r, 0 < n -> 0 <= fst (Intn n r) < n
}.

(** ** Generic bounded loop

    A Go [for cond { body }] over a record of the loop's variables.  The
    fuel is chosen by the caller from a measure of the loop; [while_exit]
    shows that with enough of it the loop leaves through its guard. *)

Fixpoint while {A : Type} (fuel : nat) (cond : A -> bool) (body : A -> A)
  (a : A) : A :=
  match fuel with
  | O => a
  | Datatypes.S fuel' =>
      if cond a then while fuel' cond body (body a) else a
  end.

Section Engine.

Context {St D E W R : Type} `{RandSource R}.

(** [time.Now().UnixNano()], read from the world. *)
Variable UnixNano : W -> Z.

(** ** Data model (spec.go, lines 9-84) *)

(** [CommandOutput[S]] *)
Record CommandOutput : Type := {
  NewState : St;
  Description : D;
  Error : option E
}.

(** [CommandFunc[S]]: a closure built by [Gen]; it runs against the system
    under test and may still hold the [rnd] pointer [Gen] was given. *)
Definition CommandFunc : Type := R -> W -> CommandOutput * R * W.

(** [Command[S]].  [Gen] returning [None] is Go's nil CommandFunc.  [Verify]
    is documented as a comparison of two states and is embedded as a pure
    function; [None] is a nil [Verify]. *)
Record Command : Type := {
  Name : string;
  Gen : St -> R -> W -> option CommandFunc * R * W;
  Verify : option (St -> St -> bool)
}.

(** [Spec[S]].  Nil callbacks are [None].  [InitState] is documented to
    return the initial state of an iteration and is a pure thunk. *)
Record Spec : Type := {
  Setup : option (W -> option E * W);
  TearDown : option (W -> option E * W);
  InitState : option (unit -> St);
  Commands : list Command
}.

(** [SpecConf] *)
Record SpecConf : Type := {
  Rand : option R;
  Iterations : Z;
  MaxCmdPerIter : Z
}.

(** The error values [Run] builds with [fmt.Errorf], one constructor per
    format string, carrying the operands of the format. *)
Inductive RunError : Type :=
| ErrCommandsEmpty
    (* "spec.Run Commands is empty" *)
| ErrInitStateNil
    (* "spec.InitState cannot be nil" *)
| ErrSetup (cause : E)
    (* "spec.Run Setup error: %w", err *)
| ErrCmd (iter step : Z) (name : string) (desc : D) (state : St) (cause : E)
    (* "spec.Run failed iter: %d step: %d cmd error - cmd=%s %+v state=%+v err=%v" *)
| ErrVerify (iter step : Z) (name : string) (desc : D) (oldState newState : St)
    (* "spec.Run failed iter: %d step: %d verify false - cmd=%s %+v oldState=%+v newState=%+v" *)
| ErrTearDown (operand : option RunError).
    (* "spec.Run TearDown error: %w", err  -- the operand is [Run]'s own
       [err] variable, as line 166 has it *)

(** What [errors.Unwrap] gives: only a [%w] operand that is a non-nil error
    is wrapped. *)
Definition Unwrap (e : RunError) : option (E + RunError) :=
  match e with
  | ErrSetup cause => Some (inl cause)
  | ErrTearDown (Some inner) => Some (inr inner)
  | _ => None
  end.

(** The iteration index, step index and command name an error reports. *)
Definition errIter (e : RunError) : option Z :=
  match e with
  | ErrCmd i _ _ _ _ _ | ErrVerify i _ _ _ _ _ => Some i
  | _ => None
  end.

Definition errStep (e : RunError) : option Z :=
  match e with
  | ErrCmd _ k _ _ _ _ | ErrVerify _ k _ _ _ _ => Some k
  | _ => None
  end.

Definition errCmdName (e : RunError) : option string :=
  match e with
  | ErrCmd _ _ n _ _ _ | ErrVerify _ _ n _ _ _ => Some n
  | _ => None
  end.

(** ** Call log

    Ghost instrumentation: one event per callback invocation and per line
    printed, most recent first.  It is what "is invoked", "is not consulted"
    and "exactly once" are stated on. *)
Inductive Event : Type :=
| EvSetup
| EvTearDown
| EvPrintSeed (seed : Z)
| EvPrintTearDownErr (e : E)
| EvInitState (iter : Z)
| EvGen (iter : Z) (c : Command) (state : St) (declined : bool)
| EvExec (iter step : Z) (c : Command) (state : St) (out : CommandOutput)
| EvVerify (iter step : Z) (c : Command) (ok : bool).

Record Machine : Type := {
  world : W;
  log : list Event
}.

Definition emit (ev : Event) (m : Machine) : Machine :=
  {| world := world m; log := ev :: log m |}.

Definition setWorld (w : W) (m : Machine) : Machine :=
  {| world := w; log := log m |}.

(** ** The loops of [Run] (lines 118-159) *)

(** The variables live in the inner loop. *)
Record CmdVars : Type := {
  state : St;
  cmdRun : Z;
  tries : Z;
  err : option RunError;
  rnd : R;
  mach : Machine
}.

(** The variables live across iterations. *)
Record IterVars : Type := {
  i : Z;
  iterErr : option RunError;
  iterRnd : R;
  iterMach : Machine
}.

Definition isNil {A : Type} (o : option A) : bool :=
  match o with None => true | Some _ => false end.

Section Loops.

(** Fixed during the loops: the command list with its first element (the
    list was checked non-empty), [InitState], and the defaulted bounds. *)
Variable c0 : Command.
Variable cmds : list Command.
Variable initState : unit -> St.
Variable iters cmdPerIter maxTries : Z.

(** [s.Commands[k]].  Go panics when [k] is out of range; [k] comes from
    [rnd.Intn(len(s.Commands))] and never is ([pick_in_range]). *)
Definition pick (k : Z) : Command := nth (Z.to_nat k) cmds c0.

(** [cmdRun < totalCmdsToRun && tries < maxTries && err == nil] *)
Definition cmdCond (totalCmdsToRun : Z) (v : CmdVars) : bool :=
  (cmdRun v <? totalCmdsToRun) && (tries v <? maxTries) && isNil (err v).

(** What the [Verify] block (lines 145-151) logs for a step. *)
Definition verifyEvents (iter step : Z) (c : Command) (old : St)
  (out : CommandOutput) : list Event :=
  match Verify c with
  | Some verify => [EvVerify iter step c (verify old (NewState out))]
  | None => []
  end.

(** Body of the inner loop (lines 129-157). *)
Definition cmdStep (iter : Z) (v : CmdVars) : CmdVars :=
  let '(k, r1) := Intn (Z.of_nat (List.length cmds)) (rnd v) in
  let c := pick k in
  let '(cfunc, r2, w2) := Gen c (state v) r1 (world (mach v)) in
  match cfunc with
  | None =>
      (* command declined to run *)
      {| state := state v;
         cmdRun := cmdRun v;
         tries := tries v + 1;
         err := err v;
         rnd := r2;
         mach := emit (EvGen iter c (state v) true) (setWorld w2 (mach v)) |}
  | Some f =>
      (* run command *)
      let '(out, r3, w3) := f r2 w2 in
      let err1 :=
        match Error out with
        | Some e =>
            Some (ErrCmd iter (cmdRun v) (Name c) (Description out) (state v) e)
        | None => err v
        end in
      (* if command has a verify step, run it *)
      let err2 :=
        match Verify c with
        | Some verify =>
            if verify (state v) (NewState out) then err1
            else Some (ErrVerify iter (cmdRun v) (Name c) (Description out)
                         (state v) (NewState out))
        | None => err1
        end in
      {| state := NewState out;
         cmdRun := cmdRun v + 1;
         tries := 0;
         err := err2;
         rnd := r3;
         mach := {| world := w3;
                    log := verifyEvents iter (cmdRun v) c (state v) out
                           ++ EvExec iter (cmdRun v) c (state v) out
                           :: EvGen iter c (state v) false
                           :: log (mach v) |} |}
  end.

(** Measure of the inner loop: a command run gives back all the tries. *)
Definition cmdMeasure (totalCmdsToRun : Z) (v : CmdVars) : nat :=
  Z.to_nat ((totalCmdsToRun - cmdRun v) * (maxTries + 1)
            + (maxTries - tries v)).

Definition cmdFuel (totalCmdsToRun : Z) : nat :=
  Z.to_nat (totalCmdsToRun * (maxTries + 1) + maxTries).

(** Body of the outer loop (lines 124-158), with its [i++]. *)
Definition iteration (o : IterVars) : IterVars :=
  let st0 := initState tt in
  let '(t, r1) := Intn cmdPerIter (iterRnd o) in
  let totalCmdsToRun := t + 1 in
  let v := while (cmdFuel totalCmdsToRun) (cmdCond totalCmdsToRun)
             (cmdStep (i o))
             {| state := st0;
                cmdRun := 0;
                tries := 0;
                err := iterErr o;
                rnd := r1;
                mach := emit (EvInitState (i o)) (iterMach o) |} in
  {| i := i o + 1;
     iterErr := err v;
     iterRnd := rnd v;
     iterMach := mach v |}.

(** [i < iters && err == nil] *)
Definition iterCond (o : IterVars) : bool :=
  (i o <? iters) && isNil (iterErr o).

Definition iterMeasure (o : IterVars) : nat := Z.to_nat (iters - i o).

(** [var err error; for i := 0; i < iters && err == nil; i++ { ... }] *)
Definition iterate (r : R) (m : Machine) : IterVars :=
  while (Z.to_nat iters) iterCond iteration
    {| i := 0; iterErr := None; iterRnd := r; iterMach := m |}.

End Loops.

(** ** [Run] (lines 86-175) *)

(** Lines 94-99: the result of [Setup], [None] when it is nil or succeeds. *)
Definition runSetup (s : Spec) (m : Machine) : option E * Machine :=
  match Setup s with
  | Some setup =>
      let '(e, w') := setup (world m) in
      (e, emit EvSetup (setWorld w' m))
  | None => (None, m)
  end.

(** Lines 101-106. *)
Definition chooseRand (conf : SpecConf) (m : Machine) : R * Machine :=
  match Rand conf with
  | Some r => (r, m)
  | None =>
      let seed := UnixNano (world m) in
      (NewRand seed, emit (EvPrintSeed seed) m)
  end.

(** Lines 108-116. *)
Definition itersOf (conf : SpecConf) : Z :=
  if Iterations conf <? 1 then 100 else Iterations conf.

Definition cmdPerIterOf (conf : SpecConf) : Z :=
  if MaxCmdPerIter conf <? 1 then 20 else MaxCmdPerIter conf.

(** Line 122. *)
Definition maxTriesOf (s : Spec) : Z := 3 * Z.of_nat (List.length (Commands s)).

(** Lines 161-172. *)
Definition runTearDown (s : Spec) (err : option RunError) (m : Machine)
  : option RunError * Machine :=
  match TearDown s with
  | Some teardown =>
      let '(err2, w') := teardown (world m) in
      let m' := emit EvTearDown (setWorld w' m) in
      match err2 with
      | Some e2 =>
          match err with
          | None =>
              (* return as error from spec run *)
              (Some (ErrTearDown err), m')
          | Some _ =>
              (* already have an error - log TearDown err but return
                 original err to caller *)
              (err, emit (EvPrintTearDownErr e2) m')
          end
      | None => (err, m')
      end
  | None => (err, m)
  end.

(** The part of [Run] after a successful setup, up to the end of the
    loops: the [err] variable of line 118 as teardown finds it, and the
    machine at that point. *)
Definition runIterations (s : Spec) (conf : SpecConf) (c0 : Command)
  (initState : unit -> St) (m : Machine) : IterVars :=
  let '(r, m2) := chooseRand conf m in
  iterate c0 (Commands s) initState (itersOf conf) (cmdPerIterOf conf)
    (maxTriesOf s) r m2.

(** The machine a run starts from: the caller's world, nothing logged. *)
Definition startOf (w : W) : Machine := {| world := w; log := [] |}.

Definition Run (s : Spec) (conf : SpecConf) (w : W)
  : (Z * option RunError) * Machine :=
  let m0 := startOf w in
  match Commands s with
  | [] => ((0, Some ErrCommandsEmpty), m0)
  | c0 :: _ =>
      match InitState s with
      | None => ((0, Some ErrInitStateNil), m0)
      | Some initState =>
          let '(serr, m1) := runSetup s m0 in
          match serr with
          | Some e => ((0, Some (ErrSetup e)), m1)
          | None =>
              let o := runIterations s conf c0 initState m1 in
              let '(err', m4) := runTearDown s (iterErr o) (iterMach o) in
              ((itersOf conf, err'), m4)
          end
      end
  end.

(** ** Observations on a run *)

(** The error [Setup] returns in world [w] ([None]: nil [Setup], or
    success). *)
Definition setupErr (s : Spec) (w : W) : option E :=
  fst (runSetup s (startOf w)).

(** The [err] variable of [Run] when the loops are over and [TearDown] has
    not run yet: the error recorded by the iterations, if any. *)
Definition errBeforeTearDown (s : Spec) (conf : SpecConf) (w : W)
  : option RunError :=
  match Commands s, InitState s, setupErr s w with
  | c0 :: _, Some initState, None =>
      iterErr (runIterations s conf c0 initState (snd (runSetup s (startOf w))))
  | _, _, _ => None
  end.

(** Events of the iterations, as opposed to setup, teardown and printing. *)
Definition isIterEvent (ev : Event) : bool :=
  match ev with
  | EvInitState _ | EvGen _ _ _ _ | EvExec _ _ _ _ _ | EvVerify _ _ _ _ => true
  | _ => false
  end.

Definition isTearDown (ev : Event) : bool :=
  match ev with EvTearDown => true | _ => false end.

Definition isExec (ev : Event) : bool :=
  match ev with EvExec _ _ _ _ _ => true | _ => false end.

Definition isGen (ev : Event) : bool :=
  match ev with EvGen _ _ _ _ => true | _ => false end.

(** A call of [Gen] in iteration [iter] that declined. *)
Definition isDeclineOf (iter : Z) (ev : Event) : Prop :=
  exists c st, ev = EvGen iter c st true.

(** A step that records an error: a command that returned one, or a
    verification that returned false. *)
Definition isFailure (ev : Event) : bool :=
  match ev with
  | EvExec _ _ _ _ out => negb (isNil (Error out))
  | EvVerify _ _ _ ok => negb ok
  | _ => false
  end.

Definition count (p : Event -> bool) (l : list Event) : nat :=
  List.length (filter p l).

(** The selections, declines and threaded states of a run, in order. *)
Definition iterEvents (l : list Event) : list Event := filter isIterEvent l.

(** A command whose [Gen] declines in state [st], whatever it draws and
    whatever the world; and one that declines in every state. *)
Definition declinesAt (st : St) (c : Command) : Prop :=
  forall r w, fst (fst (Gen c st r w)) = None.

Definition declines (c : Command) : Prop :=
  forall st, declinesAt st c.

(** A command whose [Gen] and [CommandFunc] are deterministic: what they
    return, and what they draw from the random source, is a function of the
    model state and the random source, whatever the world. *)
Definition sameOutcome (f g : CommandFunc) : Prop :=
  forall r w1 w2, fst (f r w1) = fst (g r w2).

Definition deterministic (c : Command) : Prop :=
  forall st r w1 w2,
    snd (fst (Gen c st r w1)) = snd (fst (Gen c st r w2)) /\
    match fst (fst (Gen c st r w1)), fst (fst (Gen c st r w2)) with
    | None, None => True
    | Some f, Some g => sameOutcome f g
    | _, _ => False
    end.

(** The log once an error is recorded: the failing step is the last thing
    the iterations did, and nothing failed before it. *)
Inductive Recorded : option RunError -> list Event -> Prop :=
| RecNone l :
    forallb (fun ev => negb (isFailure ev)) l = true ->
    Recorded None l
| RecCmd iter step c st out e l :
    Error out = Some e ->
    forallb (fun ev => negb (isFailure ev))
      (verifyEvents iter step c st out) = true ->
    forallb (fun ev => negb (isFailure ev)) l = true ->
    Recorded (Some (ErrCmd iter step (Name c) (Description out) st e))
      (verifyEvents iter step c st out ++ EvExec iter step c st out :: l)
| RecVerify iter step c st out l :
    verifyEvents iter step c st out = [EvVerify iter step c false] ->
    forallb (fun ev => negb (isFailure ev)) l = true ->
    Recorded (Some (ErrVerify iter step (Name c) (Description out) st
                      (NewState out)))
      (verifyEvents iter step c st out ++ EvExec iter step c st out :: l).

(** Two states of the inner loop that agree on everything but the world. *)
Definition cmdVarsAgree (v1 v2 : CmdVars) : Prop :=
  state v1 = state v2 /\ cmdRun v1 = cmdRun v2 /\ tries v1 = tries v2
  /\ err v1 = err v2 /\ rnd v1 = rnd v2 /\ log (mach v1) = log (mach v2).

Definition iterVarsAgree (o1 o2 : IterVars) : Prop :=
  i o1 = i o2 /\ iterErr o1 = iterErr o2 /\ iterRnd o1 = iterRnd o2
  /\ log (iterMach o1) = log (iterMach o2).

(** A log that grew from [base] by events of the iterations only. *)
Definition extends (base l : list Event) : Prop :=
  exists new, l = new ++ base /\ forallb isIterEvent new = true.

(** ** Reading a log back *)

Definition isInit (ev : Event) : bool :=
  match ev with EvInitState _ => true | _ => false end.

Definition isSetup (ev : Event) : bool :=
  match ev with EvSetup => true | _ => false end.

(** The model state after the logged events: the value of the last
    [InitState], replaced by the [NewState] of each command run since. *)
Fixpoint stateAfter (init : St) (l : list Event) : St :=
  match l with
  | [] => init
  | EvInitState _ :: _ => init
  | EvExec _ _ _ _ out :: _ => NewState out
  | _ :: rest => stateAfter init rest
  end.

(** The number of commands run since the last [InitState]. *)
Fixpoint stepsAfter (l : list Event) : Z :=
  match l with
  | [] => 0
  | EvInitState _ :: _ => 0
  | EvExec _ _ _ _ _ :: rest => stepsAfter rest + 1
  | _ :: rest => stepsAfter rest
  end.

(** A log in which every [Gen] and every command was given the state the
    events before it lead to, and every command the step index they lead
    to. *)
Fixpoint threaded (init : St) (l : list Event) : Prop :=
  match l with
  | [] => True
  | ev :: rest =>
      match ev with
      | EvGen _ _ st _ => st = stateAfter init rest
      | EvExec _ step _ st _ =>
          st = stateAfter init rest /\ step = stepsAfter rest
      | _ => True
      end /\ threaded init rest
  end.

(** Where a logged call comes from: its command is one of [cmds]; a
    decline is what its [Gen] answered in the state logged, for some state
    of the random source and of the world; the output of a command was
    returned by a closure its [Gen] built in the state logged. *)
Definition produced (cmds : list Command) (ev : Event) : Prop :=
  match ev with
  | EvGen _ c st declined =>
      In c cmds
      /\ exists r w, isNil (fst (fst (Gen c st r w))) = declined
  | EvExec _ _ c st out =>
      In c cmds
      /\ exists r w f r' w',
           fst (fst (Gen c st r w)) = Some f /\ fst (fst (f r' w')) = out
  | EvVerify _ _ c _ => In c cmds
  | _ => True
  end.

(** The state a logged [Gen] or command was given. *)
Definition preState (ev : Event) : option St :=
  match ev with
  | EvGen _ _ st _ | EvExec _ _ _ st _ => Some st
  | _ => None
  end.

(** Two states of the loops that differ only in what had been logged
    before the loops started ([b1] in one, [b2] in the other). *)
Definition cmdVarsFramed (b1 b2 : list Event) (v1 v2 : CmdVars) : Prop :=
  state v1 = state v2 /\ cmdRun v1 = cmdRun v2 /\ tries v1 = tries v2
  /\ err v1 = err v2 /\ rnd v1 = rnd v2
  /\ world (mach v1) = world (mach v2)
  /\ exists new, log (mach v1) = new ++ b1 /\ log (mach v2) = new ++ b2.

Definition iterVarsFramed (b1 b2 : list Event) (o1 o2 : IterVars) : Prop :=
  i o1 = i o2 /\ iterErr o1 = iterErr o2 /\ iterRnd o1 = iterRnd o2
  /\ world (iterMach o1) = world (iterMach o2)
  /\ exists new,
       log (iterMach o1) = new ++ b1 /\ log (iterMach o2) = new ++ b2
       /\ forallb isIterEvent new = true.

(** An event whose state, if it has one, satisfies [Inv]. *)
Definition respects (Inv : St -> Prop) (ev : Event) : Prop :=
  match preState ev with
  | Some st => Inv st
  | None => True
  end.

(** A step of command [c] from state [st] that records no error: the
    closure [Gen] built returned [out] without error, and [Verify], if
    any, accepted it. *)
Definition passes (c : Command) (st : St) (out : CommandOutput) : Prop :=
  (exists r w f r' w',
     fst (fst (Gen c st r w)) = Some f /\ fst (fst (f r' w')) = out)
  /\ Error out = None
  /\ forall vf, Verify c = Some vf -> vf st (NewState out) = true.

(** A command that never declines. *)
Definition neverDeclines (c : Command) : Prop :=
  forall st r w, fst (fst (Gen c st r w)) <> None.

(** A command that always runs and never records an error. *)
Definition alwaysPasses (c : Command) : Prop :=
  forall st r w,
    exists f, fst (fst (Gen c st r w)) = Some f
              /\ forall r' w',
                   Error (fst (fst (f r' w'))) = None
                   /\ forall vf, Verify c = Some vf ->
                        vf st (NewState (fst (fst (f r' w')))) = true.

End Engine.

(** ** A concrete instance

    A linear congruential generator as the random source, integers as model
    state and as world (the world counts the calls made on the system under
    test), strings as descriptions and errors. *)

#[export] Instance lcgRand : RandSource Z := {|
  Intn := fun n r => (r mod n, (r * 1103515245 + 12345) mod 2147483648);
  NewRand := fun seed => seed mod 2147483648;
  Intn_range := fun n r Hn => Z.mod_pos_bound r n Hn
|}.

Definition ZCommand : Type := @Command Z string string Z Z.
Definition ZSpec : Type := @Spec Z string string Z Z.
Definition ZConf : Type := @SpecConf Z.
Definition ZError : Type := @RunError Z string string.
Definition ZEvent : Type := @Event Z string string Z Z.

(** The clock of the example world. *)
Definition clockOf (w : Z) : Z := 1700000000 + w.

Definition okHook (w : Z) : option string * Z := (None, w + 1).
Definition failHook (msg : string) (w : Z) : option string * Z :=
  (Some msg, w + 1).

(** Always runs, adds one to the model state; verification holds. *)
Definition cmdInc : ZCommand := {|
  Name := "inc";
  Gen := fun st r w =>
    (Some (fun r' w' =>
       ({| NewState := st + 1; Description := "inc"%string; Error := None |},
        r', w' + 1)), r, w);
  Verify := Some (fun old new => new =? old + 1)
|}.

(** Never runs. *)
Definition cmdDecline : ZCommand := {|
  Name := "decline";
  Gen := fun st r w => (None, r, w);
  Verify := None
|}.

(** Runs and fails; no verification step. *)
Definition cmdFail : ZCommand := {|
  Name := "fail";
  Gen := fun st r w =>
    (Some (fun r' w' =>
       ({| NewState := st; Description := "fail"%string;
           Error := Some "boom"%string |}, r', w' + 1)), r, w);
  Verify := None
|}.

(** Runs and fails, leaving the field it tracks empty, so that its
    verification step fails too (as createUser of the realworldapi example
    does when its POST fails). *)
Definition cmdFailUnverified : ZCommand := {|
  Name := "create";
  Gen := fun st r w =>
    (Some (fun r' w' =>
       ({| NewState := 0; Description := "create"%string;
           Error := Some "status 500"%string |}, r', w' + 1)), r, w);
  Verify := Some (fun old new => negb (new =? 0))
|}.

(** Runs without error; verification fails from the second step on. *)
Definition cmdDrift : ZCommand := {|
  Name := "drift";
  Gen := fun st r w =>
    (Some (fun r' w' =>
       ({| NewState := st + 1; Description := "drift"%string;
           Error := None |}, r', w' + 1)), r, w);
  Verify := Some (fun old new => new <? 2)
|}.

Definition specOf (setup teardown : option (Z -> option string * Z))
  (cs : list ZCommand) : ZSpec :=
  {| Setup := setup; TearDown := teardown;
     InitState := Some (fun _ => 0); Commands := cs |}.

Definition confOf (seed iterations maxCmd : Z) : ZConf :=
  {| Rand := Some seed; Iterations := iterations; MaxCmdPerIter := maxCmd |}.

(** No commands, and hooks that would be logged if they were called. *)
Definition emptySpec : ZSpec := specOf (Some okHook) (Some okHook) [].

(** Neither commands nor InitState. *)
Definition nilSpec : ZSpec :=
  {| Setup := Some okHook; TearDown := Some okHook;
     InitState := None; Commands := [] |}.

Definition badSetupSpec : ZSpec :=
  specOf (Some (failHook "no server")) (Some okHook) [cmdInc].

Definition declineSpec : ZSpec :=
  specOf (Some okHook) (Some okHook) [cmdDecline; cmdDecline].

Definition incSpec : ZSpec :=
  specOf (Some okHook) (Some (failHook "disk full")) [cmdInc].

Definition incSpec' : ZSpec :=
  specOf (Some okHook) (Some (failHook "connection reset")) [cmdInc].

Definition failSpec : ZSpec :=
  specOf (Some okHook) (Some (failHook "disk full")) [cmdInc; cmdFail].

Definition unverifiedSpec : ZSpec :=
  specOf None None [cmdFailUnverified].

Definition driftSpec : ZSpec :=
  specOf (Some okHook) (Some okHook) [cmdDrift].

Definition mixedSpec : ZSpec :=
  specOf (Some okHook) None [cmdInc; cmdDecline].

(** What the failing commands return. *)
Definition failOut : @CommandOutput Z string string :=
  {| NewState := 1; Description := "fail"%string;
     Error := Some "boom"%string |}.

Definition unverifiedOut : @CommandOutput Z string string :=
  {| NewState := 0; Description := "create"%string;
     Error := Some "status 500"%string |}.

(** * The example: a specification of the Real World API
      (examples/realworldapi/realworldapi.go)

    The commands of the example and the HTTP helper they share.  The
    libraries under them stay outside: [encoding/json], [net/http] and
    [gofakeit] enter as the operations of a class, the network and the
    fake-data generator acting on the world. *)

Module RealWorld.

Local Open Scope string_scope.

(** [User], [UserResponse], [NewUser], [NewUserRequest], [LoginUser],
    [LoginUserRequest].  Go has a name space per struct; here the fields of
    the request structs carry a prefix, and the single field of each
    wrapper struct (named [User], [NewUser], [LoginUser] after its type in
    the source) is [respUser], [reqNewUser], [reqLoginUser]. *)
Record User : Type := {
  Email : string;
  Token : string;
  Username : string;
  Bio : string;
  Image : string
}.

Record UserResponse : Type := { respUser : User }.

Record NewUser : Type := {
  newUsername : string;
  newEmail : string;
  newPassword : string
}.

Record NewUserRequest : Type := { reqNewUser : NewUser }.

Record LoginUser : Type := {
  loginEmail : string;
  loginPassword : string
}.

Record LoginUserRequest : Type := { reqLoginUser : LoginUser }.

(** [RealWorldState] *)
Record RealWorldState : Type := {
  endpoint : string;
  authToken : string;
  password : string;
  createUser : User;
  loginUser : User;
  currentUser : User
}.

(** Go's zero value of [User]. *)
Definition zeroUser : User :=
  {| Email := ""; Token := ""; Username := ""; Bio := ""; Image := "" |}.

(** The non-nil values [doHTTP] is given as [input any]. *)
Inductive Payload : Type :=
| NewUserInput (r : NewUserRequest)
| LoginInput (r : LoginUserRequest).

(** The values the commands return as [Description any]. *)
Inductive Desc : Type :=
| DescInput (p : Payload)
| DescToken (t : string).

(** An [*http.Request] as [doHTTP] builds it; the header in the order of
    the [Set] calls, most recent first. *)
Record Request : Type := {
  Method : string;
  URL : string;
  Body : option string;
  Header : list (string * string)
}.

(** [req.Header.Set(k, v)]: replaces what was set for [k]. *)
Definition headerSet (k v : string) (req : Request) : Request :=
  {| Method := Method req; URL := URL req; Body := Body req;
     Header := (k, v)
               :: filter (fun kv => negb (String.eqb (fst kv) k)) (Header req) |}.

(** [req.Header.Get(k)] for a key in canonical form. *)
Fixpoint headerGet (k : string) (h : list (string * string)) : option string :=
  match h with
  | [] => None
  | (k', v) :: rest => if String.eqb k' k then Some v else headerGet k rest
  end.

Section Model.

(** Errors of the libraries, returned by [doHTTP] as they are. *)
Variable LibErr : Type.

(** The errors [doHTTP] returns. *)
Inductive HTTPError : Type :=
| LibError (e : LibErr)
| StatusError (method u : string) (code : Z).
    (* fmt.Errorf("doHTTP %s %s status %d", method, u, resp.StatusCode) *)

(** The libraries under the example. *)
Class Net (W : Type) : Type := {
  (** [json.Marshal(input)] *)
  jsonMarshal : Payload -> LibErr + string;
  (** the error of [http.NewRequest(method, u, body)], if any *)
  newRequestErr : string -> string -> option LibErr;
  (** [client.Do(req)] followed by [io.ReadAll(resp.Body)]: the error of
      [Do], or the status code with the body read or the error of
      [ReadAll] *)
  clientDo : Request -> W -> (LibErr + (Z * (LibErr + string))) * W;
  (** [json.Unmarshal(body, out)] into a zero [UserResponse] *)
  jsonUnmarshal : string -> LibErr + UserResponse;
  (** [gofakeit.Username()], [gofakeit.Password(true, true, true, false,
      false, 2)], [gofakeit.Email()] *)
  fakeUsername : W -> string * W;
  fakePassword : W -> string * W;
  fakeEmail : W -> string * W
}.

Context {W R : Type} `{RandSource R} `{Net W}.

Abbreviation RWCommand := (@Command RealWorldState Desc HTTPError W R).
Abbreviation RWSpec := (@Spec RealWorldState Desc HTTPError W R).
Abbreviation RWOutput := (@CommandOutput RealWorldState Desc HTTPError).

(** [randNewUser]: the fields are evaluated in the order of the literal. *)
Definition randNewUser (w : W) : NewUser * W :=
  let '(username, w1) := fakeUsername w in
  let '(pass, w2) := fakePassword w1 in
  let '(email, w3) := fakeEmail w2 in
  ({| newUsername := username; newEmail := email; newPassword := pass |},
   w3).

(** The first half of [doHTTP]: marshal the input, build the request, set
    its headers. *)
Definition buildRequest (method u authToken : string)
  (input : option Payload) : HTTPError + Request :=
  match
    match input with
    | Some p =>
        match jsonMarshal p with
        | inl e => inl e
        | inr injson => inr (Some injson)
        end
    | None => inr None
    end
  with
  | inl e => inl (LibError e)
  | inr inreader =>
      match newRequestErr method u with
      | Some e => inl (LibError e)
      | None =>
          let req := {| Method := method; URL := u; Body := inreader;
                        Header := [] |} in
          let req :=
            match inreader with
            | Some _ => headerSet "Content-Type" "application/json" req
            | None => req
            end in
          let req :=
            if String.eqb authToken "" then req
            else headerSet "Authorization" ("Token " ++ authToken) req in
          inr req
      end
  end.

(** The second half: send it, read the body, check the status, decode. *)
Definition sendRequest (req : Request) (w : W)
  : (HTTPError + UserResponse) * W :=
  match clientDo req w with
  | (inl e, w') => (inl (LibError e), w')
  | (inr (_, inl e), w') => (inl (LibError e), w')
  | (inr (status, inr body), w') =>
      if ((status <? 200) || (299 <? status))%Z
      then (inl (StatusError (Method req) (URL req) status), w')
      else match jsonUnmarshal body with
           | inl e => (inl (LibError e), w')
           | inr resp => (inr resp, w')
           end
  end.

(** [doHTTP(method, u, authToken, input, out)]: the error, or what [out]
    holds when the error is nil. *)
Definition doHTTP (method u authToken : string) (input : option Payload)
  (w : W) : (HTTPError + UserResponse) * W :=
  match buildRequest method u authToken input with
  | inl e => (inl e, w)
  | inr req => sendRequest req w
  end.

Definition doPOST (u authToken : string) (input : Payload) (w : W)
  : (HTTPError + UserResponse) * W :=
  doHTTP "POST" u authToken (Some input) w.

Definition doGET (u authToken : string) (w : W)
  : (HTTPError + UserResponse) * W :=
  doHTTP "GET" u authToken None w.

(** The command [createUser].  (The commands are [createUserCmd],
    [getCurrentUserCmd] and [loginCmd] here: [createUser] is also a field
    of the state.) *)
Definition createUserCmd : RWCommand := {|
  Name := "createUser";
  Gen := fun state rnd w =>
    let '(nu, w1) := randNewUser w in
    let input := {| reqNewUser := nu |} in
    (Some (fun rnd' w' =>
       (* state.password = "" *)
       let state1 :=
         {| endpoint := endpoint state; authToken := authToken state;
            password := ""; createUser := createUser state;
            loginUser := loginUser state;
            currentUser := currentUser state |} in
       let '(res, w'') :=
         doPOST (endpoint state1 ++ "/users") (authToken state1)
           (NewUserInput input) w' in
       match res with
       | inr resp =>
           ({| NewState :=
                 {| endpoint := endpoint state1;
                    authToken := authToken state1;
                    password := newPassword nu;
                    createUser := respUser resp;
                    loginUser := loginUser state1;
                    currentUser := currentUser state1 |};
               Description := DescInput (NewUserInput input);
               Error := None |}, rnd', w'')
       | inl e =>
           ({| NewState := state1;
               Description := DescInput (NewUserInput input);
               Error := Some e |}, rnd', w'')
       end), rnd, w1);
  Verify := Some (fun oldState newState =>
    negb (String.eqb (Username (createUser newState)) "")
    && negb (String.eqb (password newState) ""))
|}.

(** The command [getCurrentUser]. *)
Definition getCurrentUserCmd : RWCommand := {|
  Name := "getCurrentUser";
  Gen := fun state rnd w =>
    if String.eqb (authToken state) "" then (None, rnd, w)
    else
      (Some (fun rnd' w' =>
         (* state.currentUser.Username = "" *)
         let state1 :=
           {| endpoint := endpoint state; authToken := authToken state;
              password := password state; createUser := createUser state;
              loginUser := loginUser state;
              currentUser :=
                {| Email := Email (currentUser state);
                   Token := Token (currentUser state);
                   Username := "";
                   Bio := Bio (currentUser state);
                   Image := Image (currentUser state) |} |} in
         let '(res, w'') :=
           doGET (endpoint state1 ++ "/user") (authToken state1) w' in
         match res with
         | inr resp =>
             ({| NewState :=
                   {| endpoint := endpoint state1;
                      authToken := authToken state1;
                      password := password state1;
                      createUser := createUser state1;
                      loginUser := loginUser state1;
                      currentUser := respUser resp |};
                 Description := DescToken (authToken state1);
                 Error := None |}, rnd', w'')
         | inl e =>
             ({| NewState := state1;
                 Description := DescToken (authToken state1);
                 Error := Some e |}, rnd', w'')
         end), rnd, w);
  Verify := Some (fun oldState newState =>
    String.eqb (Username (loginUser oldState))
      (Username (currentUser newState)))
|}.

(** The command [login]. *)
Definition loginCmd : RWCommand := {|
  Name := "login";
  Gen := fun state rnd w =>
    if String.eqb (Username (createUser state)) "" then (None, rnd, w)
    else
      let input :=
        {| reqLoginUser :=
             {| loginEmail := Email (createUser state);
                loginPassword := password state |} |} in
      (Some (fun rnd' w' =>
         (* state.authToken = "" *)
         let state1 :=
           {| endpoint := endpoint state; authToken := "";
              password := password state; createUser := createUser state;
              loginUser := loginUser state;
              currentUser := currentUser state |} in
         let '(res, w'') :=
           doPOST (endpoint state1 ++ "/users/login") (authToken state1)
             (LoginInput input) w' in
         match res with
         | inr resp =>
             ({| NewState :=
                   {| endpoint := endpoint state1;
                      authToken := Token (respUser resp);
                      password := password state1;
                      createUser := createUser state1;
                      loginUser := respUser resp;
                      currentUser := currentUser state1 |};
                 Description := DescInput (LoginInput input);
                 Error := None |}, rnd', w'')
         | inl e =>
             ({| NewState := state1;
                 Description := DescInput (LoginInput input);
                 Error := Some e |}, rnd', w'')
         end), rnd, w);
  Verify := Some (fun oldState newState =>
    String.eqb (Username (loginUser newState))
      (Username (createUser newState))
    && negb (String.eqb (authToken newState) ""))
|}.

(** The state [InitState] returns: only the endpoint is set. *)
Definition initialState (ep : string) : RealWorldState :=
  {| endpoint := ep; authToken := ""; password := "";
     createUser := zeroUser; loginUser := zeroUser;
     currentUser := zeroUser |}.

(** [newRealWorldSpec(endpoint)] *)
Definition newRealWorldSpec (ep : string) : RWSpec :=
  {| Setup := None;
     TearDown := None;
     InitState := Some (fun _ => initialState ep);
     Commands := [createUserCmd; getCurrentUserCmd; loginCmd] |}.

(** What the states of a run keep: the endpoint is the configured one; a
    session token in the state is the token of the logged-in user, whose
    name is not empty; and a user has been created exactly when a
    password is remembered. *)
Definition consistent (ep : string) (st : RealWorldState) : Prop :=
  endpoint st = ep
  /\ (authToken st <> "" ->
      Token (loginUser st) = authToken st /\ Username (loginUser st) <> "")
  /\ (Username (createUser st) <> "" <-> password st <> "").

End Model.

End RealWorld.

(** ** A toy server for the example

    The world counts the calls made on it.  Every request made when the count is 10 modulo 11 is
    answered with status 500; the others with status 200 and the same
    user. *)

Definition toyUser : RealWorld.User :=
  {| RealWorld.Email := "alice@example.org"; RealWorld.Token := "t0k3n";
     RealWorld.Username := "alice"; RealWorld.Bio := "";
     RealWorld.Image := "" |}.

#[export] Instance toyNet : RealWorld.Net string Z := {|
  RealWorld.jsonMarshal := fun _ => inr "{}"%string;
  RealWorld.newRequestErr := fun _ _ => None;
  RealWorld.clientDo := fun _ w =>
    (inr (if w mod 11 =? 10 then 500 else 200, inr "{}"%string), w + 1);
  RealWorld.jsonUnmarshal := fun _ => inr {| RealWorld.respUser := toyUser |};
  RealWorld.fakeUsername := fun w => ("alice"%string, w + 1);
  RealWorld.fakePassword := fun w => ("s3cret"%string, w + 1);
  RealWorld.fakeEmail := fun w => ("alice@example.org"%string, w + 1)
|}.

Definition toySpec : @Spec RealWorld.RealWorldState RealWorld.Desc
                       (RealWorld.HTTPError string) Z Z :=
  RealWorld.newRealWorldSpec string "http://127.0.0.1:8585/api".

(** Commands that all run and verify, for the engine. *)
Definition passSpec : ZSpec :=
  specOf (Some okHook) (Some okHook) [cmdInc; cmdInc].

(** No random source supplied. *)
Definition unseededConf : ZConf :=
  {| Rand := None; Iterations := 2; MaxCmdPerIter := 3 |}.

Definition driftOut : @CommandOutput Z string string :=
  {| NewState := 2; Description := "drift"%string; Error := None |}.

(** States and outputs of the example on the toy server. *)
Definition toyEndpoint : string := "http://127.0.0.1:8585/api".

Definition toyNewUser : RealWorld.NewUserRequest :=
  {| RealWorld.reqNewUser :=
       {| RealWorld.newUsername := "alice";
          RealWorld.newEmail := "alice@example.org";
          RealWorld.newPassword := "s3cret" |} |}.

Definition toyLogin : RealWorld.LoginUserRequest :=
  {| RealWorld.reqLoginUser :=
       {| RealWorld.loginEmail := "alice@example.org";
          RealWorld.loginPassword := "s3cret" |} |}.

Definition toyCreated : RealWorld.RealWorldState :=
  {| RealWorld.endpoint := toyEndpoint; RealWorld.authToken := "";
     RealWorld.password := "s3cret"; RealWorld.createUser := toyUser;
     RealWorld.loginUser := RealWorld.zeroUser;
     RealWorld.currentUser := RealWorld.zeroUser |}.

Definition toyLoggedIn : RealWorld.RealWorldState :=
  {| RealWorld.endpoint := toyEndpoint; RealWorld.authToken := "t0k3n";
     RealWorld.password := "s3cret"; RealWorld.createUser := toyUser;
     RealWorld.loginUser := toyUser;
     RealWorld.currentUser := RealWorld.zeroUser |}.

Definition toyCreateOut
  : @CommandOutput RealWorld.RealWorldState RealWorld.Desc
      (RealWorld.HTTPError string) :=
  {| NewState := toyCreated;
     Description := RealWorld.DescInput (RealWorld.NewUserInput toyNewUser);
     Error := None |}.

Definition toyLoginOut
  : @CommandOutput RealWorld.RealWorldState RealWorld.Desc
      (RealWorld.HTTPError string) :=
  {| NewState := toyLoggedIn;
     Description := RealWorld.DescInput (RealWorld.LoginInput toyLogin);
     Error := None |}.

(** * Properties *)

(** ** Loops *)

Section WhileFacts.

Context {A : Type} (cond : A -> bool) (body : A -> A).

(** An invariant of the body holds when the loop is left. *)
Lemma while_inv (P : A -> Prop) :
  (forall a, P a -> cond a = true -> P (body a)) ->
  forall fuel a, P a -> P (while fuel cond body a).
Proof.
  intros Hstep fuel.
  induction fuel as [|fuel IH]; intros a Ha; simpl; auto.
  destruct (cond a) eqn:Hc; auto.
Qed.

(** With fuel for the measure, the loop is left through its guard. *)
Lemma while_exit (P : A -> Prop) (mu : A -> nat) :
  (forall a, P a -> cond a = true -> P (body a)) ->
  (forall a, P a -> cond a = true -> (mu (body a) < mu a)%nat) ->
  forall fuel a, P a -> (mu a <= fuel)%nat ->
    cond (while fuel cond body a) = false.
Proof.
  intros Hinv Hdec fuel.
  induction fuel as [|fuel IH]; intros a Ha Hmu; simpl.
  - destruct (cond a) eqn:Hc; auto.
    specialize (Hdec a Ha Hc). lia.
  - destruct (cond a) eqn:Hc; auto.
    apply IH; auto.
    specialize (Hdec a Ha Hc). lia.
Qed.

(** Once the guard is false, more fuel changes nothing. *)
Lemma while_more_fuel fuel k a :
  cond (while fuel cond body a) = false ->
  while (fuel + k) cond body a = while fuel cond body a.
Proof.
  revert a.
  induction fuel as [|fuel IH]; intros a Hc; simpl in *.
  - destruct k; simpl; auto. now rewrite Hc.
  - destruct (cond a) eqn:Hca; auto.
Qed.

End WhileFacts.

(** Two loops whose variables stay related run in lock step. *)
Lemma while_rel {A B : Type} (Rel : A -> B -> Prop)
  (condA : A -> bool) (bodyA : A -> A) (condB : B -> bool) (bodyB : B -> B) :
  (forall a b, Rel a b -> condA a = condB b) ->
  (forall a b, Rel a b -> condA a = true -> Rel (bodyA a) (bodyB b)) ->
  forall fuel a b, Rel a b ->
    Rel (while fuel condA bodyA a) (while fuel condB bodyB b).
Proof.
  intros Hcond Hbody fuel.
  induction fuel as [|fuel IH]; intros a b Hab; simpl; auto.
  rewrite <- (Hcond a b Hab).
  destruct (condA a) eqn:Hc; auto.
Qed.

Section EngineFacts.

Context {St D E W R : Type} `{RandSource R}.
Variable UnixNano : W -> Z.

Abbreviation Command := (@Command St D E W R).
Abbreviation Spec := (@Spec St D E W R).
Abbreviation SpecConf := (@SpecConf R).
Abbreviation RunError := (@RunError St D E).
Abbreviation Event := (@Event St D E W R).
Abbreviation Machine := (@Machine St D E W R).
Abbreviation CmdVars := (@CmdVars St D E W R).
Abbreviation IterVars := (@IterVars St D E W R).

(** *** Bounds and defaults *)

Lemma itersOf_pos (conf : SpecConf) : 1 <= itersOf conf.
Proof. unfold itersOf. destruct (Iterations conf <? 1) eqn:Hlt; lia. Qed.

Lemma cmdPerIter_pos (conf : SpecConf) : 0 < cmdPerIterOf conf.
Proof. unfold cmdPerIterOf. destruct (MaxCmdPerIter conf <? 1) eqn:Hlt; lia. Qed.

(** The index drawn for [s.Commands[...]] is in range, so the command
    picked is one of the list. *)
Lemma pick_in_range (c0 : Command) (cmds : list Command) (r : R) :
  cmds <> [] ->
  In (pick c0 cmds (fst (Intn (Z.of_nat (List.length cmds)) r))) cmds.
Proof.
  intros Hne. unfold pick.
  apply nth_In.
  assert (0 < Z.of_nat (List.length cmds)) as Hpos.
  { destruct cmds; [congruence | simpl; lia]. }
  pose proof (Intn_range _ r Hpos). lia.
Qed.

(** *** Termination of the loops *)

Section Termination.

Variables (c0 : Command) (cmds : list Command).
Variables (maxTries total iter : Z).

Lemma cmdStep_tries_nonneg (v : CmdVars) :
  0 <= tries v -> 0 <= tries (cmdStep c0 cmds iter v).
Proof.
  intros Ht. unfold cmdStep.
  destruct (Intn _ (rnd v)) as [k r1].
  destruct (Gen _ _ _ _) as [[[f|] r2] w2]; simpl; [|lia].
  destruct (f r2 w2) as [[out r3] w3]; simpl; lia.
Qed.

Lemma cmdStep_measure (v : CmdVars) :
  0 <= tries v ->
  cmdCond maxTries total v = true ->
  (cmdMeasure maxTries total (cmdStep c0 cmds iter v)
   < cmdMeasure maxTries total v)%nat.
Proof.
  intros Ht Hc. unfold cmdCond in Hc.
  apply andb_true_iff in Hc as [Hc _].
  apply andb_true_iff in Hc as [Hrun Htries].
  apply Z.ltb_lt in Hrun. apply Z.ltb_lt in Htries.
  unfold cmdMeasure, cmdStep.
  destruct (Intn _ (rnd v)) as [k r1].
  destruct (Gen _ _ _ _) as [[[f|] r2] w2]; simpl.
  - destruct (f r2 w2) as [[out r3] w3]; simpl.
    apply Z2Nat.inj_lt; nia.
  - apply Z2Nat.inj_lt; nia.
Qed.

(** The inner loop, started as an iteration starts it, ends because its
    guard is false. *)
Lemma cmdLoop_exit (st : St) (e : option RunError) (r : R) (m : Machine) :
  cmdCond maxTries total
    (while (cmdFuel maxTries total) (cmdCond maxTries total)
       (cmdStep c0 cmds iter)
       {| state := st; cmdRun := 0; tries := 0; err := e; rnd := r;
          mach := m |}) = false.
Proof.
  apply while_exit with (P := fun v => 0 <= tries v)
                        (mu := cmdMeasure maxTries total).
  - intros a Ha _. now apply cmdStep_tries_nonneg.
  - intros a Ha Hc. now apply cmdStep_measure.
  - simpl. lia.
  - unfold cmdMeasure, cmdFuel. simpl.
    rewrite !Z.sub_0_r. lia.
Qed.

(** ... so more fuel would not change what it computes. *)
Lemma cmdLoop_fuel (st : St) (e : option RunError) (r : R) (m : Machine)
  (k : nat) :
  let v0 := {| state := st; cmdRun := 0; tries := 0; err := e; rnd := r;
               mach := m |} in
  while (cmdFuel maxTries total + k) (cmdCond maxTries total)
    (cmdStep c0 cmds iter) v0
  = while (cmdFuel maxTries total) (cmdCond maxTries total)
      (cmdStep c0 cmds iter) v0.
Proof. intros v0. apply while_more_fuel. apply cmdLoop_exit. Qed.

End Termination.

(** The outer loop ends because its guard is false. *)
Lemma iterate_exit (c0 : Command) (cmds : list Command)
  (initState : unit -> St) (iters cmdPerIter maxTries : Z) (r : R)
  (m : Machine) :
  iterCond iters
    (iterate c0 cmds initState iters cmdPerIter maxTries r m) = false.
Proof.
  unfold iterate.
  apply while_exit with (P := fun _ => True) (mu := iterMeasure iters); auto.
  - intros a _ Hc. unfold iterCond in Hc.
    apply andb_true_iff in Hc as [Hi _]. apply Z.ltb_lt in Hi.
    unfold iterMeasure, iteration.
    destruct (Intn cmdPerIter (iterRnd a)) as [t r1]. simpl.
    apply Z2Nat.inj_lt; lia.
  - unfold iterMeasure. simpl. rewrite Z.sub_0_r. lia.
Qed.

Lemma iterate_fuel (c0 : Command) (cmds : list Command)
  (initState : unit -> St) (iters cmdPerIter maxTries : Z) (r : R)
  (m : Machine) (k : nat) :
  while (Z.to_nat iters + k) (iterCond iters)
    (iteration c0 cmds initState cmdPerIter maxTries)
    {| i := 0; iterErr := None; iterRnd := r; iterMach := m |}
  = iterate c0 cmds initState iters cmdPerIter maxTries r m.
Proof. apply while_more_fuel. apply iterate_exit. Qed.


(** *** Shape of the log *)

Abbreviation clean := (forallb (fun ev : Event => negb (isFailure ev))).
Abbreviation quiet := (forallb (fun ev : Event => negb (isIterEvent ev))).

Lemma extends_refl (l : list Event) : extends l l.
Proof. exists []. split; reflexivity. Qed.

Lemma extends_trans (a b c : list Event) :
  extends a b -> extends b c -> extends a c.
Proof.
  intros [n1 [-> H1]] [n2 [-> H2]].
  exists (n2 ++ n1). rewrite app_assoc. split; auto.
  rewrite forallb_app, H1, H2. reflexivity.
Qed.

Lemma extends_new (new base : list Event) :
  forallb isIterEvent new = true -> extends base (new ++ base).
Proof. intros Hn. exists new. auto. Qed.

Lemma verifyEvents_iter (iter step : Z) (c : Command) (st : St)
  (out : CommandOutput) :
  forallb isIterEvent (verifyEvents iter step c st out) = true.
Proof. unfold verifyEvents. destruct (Verify c); reflexivity. Qed.

Lemma verifyEvents_inv (iter step : Z) (c : Command) (st : St)
  (out : CommandOutput) (ev : Event) :
  In ev (verifyEvents iter step c st out) ->
  exists vf, Verify c = Some vf /\
             ev = EvVerify iter step c (vf st (NewState out)).
Proof.
  unfold verifyEvents. destruct (Verify c) as [vf|]; simpl; [|tauto].
  intros [<-|[]]. eauto.
Qed.

Section LogShape.

Variables (c0 : Command) (cmds : list Command) (initState : unit -> St).
Variables (iters cmdPerIter maxTries : Z).

Lemma cmdStep_extends (iter : Z) (v : CmdVars) :
  extends (log (mach v)) (log (mach (cmdStep c0 cmds iter v))).
Proof.
  unfold cmdStep.
  destruct (Intn _ (rnd v)) as [k r1].
  destruct (Gen _ _ _ _) as [[[f|] r2] w2]; simpl.
  - destruct (f r2 w2) as [[out r3] w3]; simpl.
    match goal with
    | |- extends ?b (?ve ++ ?x :: ?y :: ?b) =>
        change (ve ++ x :: y :: b) with (ve ++ [x; y] ++ b)
    end.
    rewrite app_assoc. apply extends_new.
    rewrite forallb_app, verifyEvents_iter. reflexivity.
  - apply (extends_new [_]). reflexivity.
Qed.

Lemma cmdStep_recorded (iter : Z) (v : CmdVars) :
  err v = None ->
  Recorded (err v) (log (mach v)) ->
  Recorded (err (cmdStep c0 cmds iter v))
    (log (mach (cmdStep c0 cmds iter v))).
Proof.
  intros Hnone Hrec. rewrite Hnone in Hrec.
  inversion Hrec as [l Hclean Hl| |]; subst l.
  unfold cmdStep.
  destruct (Intn _ (rnd v)) as [k r1].
  set (c := pick c0 cmds k).
  destruct (Gen _ _ _ _) as [[[f|] r2] w2]; simpl.
  2:{ rewrite Hnone. constructor. simpl. exact Hclean. }
  destruct (f r2 w2) as [[out r3] w3]; simpl.
  assert (clean (EvGen iter c (state v) false :: log (mach v)) = true)
    as Hclean' by (simpl; exact Hclean).
  destruct (Error out) as [e|] eqn:He.
  - destruct (Verify c) as [vf|] eqn:Hv.
    + destruct (vf (state v) (NewState out)) eqn:Hok.
      * apply RecCmd; auto.
        unfold verifyEvents. rewrite Hv, Hok. reflexivity.
      * apply RecVerify; auto.
        unfold verifyEvents. rewrite Hv, Hok. reflexivity.
    + apply RecCmd; auto.
      unfold verifyEvents. rewrite Hv. reflexivity.
  - rewrite Hnone.
    destruct (Verify c) as [vf|] eqn:Hv.
    + destruct (vf (state v) (NewState out)) eqn:Hok.
      * constructor. unfold verifyEvents. rewrite Hv, Hok. simpl.
        rewrite He. simpl. exact Hclean.
      * apply RecVerify; auto.
        unfold verifyEvents. rewrite Hv, Hok. reflexivity.
    + constructor. unfold verifyEvents. rewrite Hv. simpl.
      rewrite He. simpl. exact Hclean.
Qed.

Lemma cmdCond_err (total : Z) (v : CmdVars) :
  cmdCond maxTries total v = true -> err v = None.
Proof.
  unfold cmdCond. intros Hc.
  apply andb_true_iff in Hc as [_ Hc].
  destruct (err v); [discriminate | reflexivity].
Qed.

Lemma iterCond_err (o : IterVars) :
  iterCond iters o = true -> iterErr o = None.
Proof.
  unfold iterCond. intros Hc.
  apply andb_true_iff in Hc as [_ Hc].
  destruct (iterErr o); [discriminate | reflexivity].
Qed.

Lemma iteration_extends (o : IterVars) :
  extends (log (iterMach o))
    (log (iterMach (iteration c0 cmds initState cmdPerIter maxTries o))).
Proof.
  unfold iteration.
  destruct (Intn cmdPerIter (iterRnd o)) as [t r1]. simpl.
  apply while_inv
    with (P := fun v : CmdVars => extends (log (iterMach o)) (log (mach v))).
  - intros a Ha _. eapply extends_trans; [exact Ha|]. apply cmdStep_extends.
  - simpl. apply (extends_new [_]). reflexivity.
Qed.

Lemma iteration_recorded (o : IterVars) :
  iterErr o = None ->
  Recorded (iterErr o) (log (iterMach o)) ->
  Recorded (iterErr (iteration c0 cmds initState cmdPerIter maxTries o))
    (log (iterMach (iteration c0 cmds initState cmdPerIter maxTries o))).
Proof.
  intros Hnone Hrec. unfold iteration.
  destruct (Intn cmdPerIter (iterRnd o)) as [t r1]. simpl.
  apply while_inv
    with (P := fun v : CmdVars => Recorded (err v) (log (mach v))).
  - intros a Ha Hc. apply cmdStep_recorded; auto.
    eapply cmdCond_err; eauto.
  - simpl. rewrite Hnone in *.
    inversion Hrec; subst. constructor. simpl. assumption.
Qed.

Lemma iterate_extends (r : R) (m : Machine) :
  extends (log m)
    (log (iterMach (iterate c0 cmds initState iters cmdPerIter maxTries r m))).
Proof.
  unfold iterate.
  apply while_inv
    with (P := fun o : IterVars => extends (log m) (log (iterMach o))).
  - intros a Ha _. eapply extends_trans; [exact Ha|].
    apply iteration_extends.
  - simpl. apply extends_refl.
Qed.

Lemma iterate_recorded (r : R) (m : Machine) :
  clean (log m) = true ->
  Recorded
    (iterErr (iterate c0 cmds initState iters cmdPerIter maxTries r m))
    (log (iterMach (iterate c0 cmds initState iters cmdPerIter maxTries r m))).
Proof.
  intros Hclean. unfold iterate.
  apply while_inv
    with (P := fun o : IterVars => Recorded (iterErr o) (log (iterMach o))).
  - intros a Ha Hc. apply iteration_recorded; auto.
    eapply iterCond_err; eauto.
  - simpl. constructor. exact Hclean.
Qed.

End LogShape.

(** *** The phases of [Run] *)

Lemma runSetup_log (s : Spec) (w : W) :
  log (snd (runSetup s (startOf w)))
  = match Setup s with Some _ => [EvSetup] | None => [] end.
Proof.
  unfold runSetup. destruct (Setup s) as [setup|]; simpl; auto.
  destruct (setup w); reflexivity.
Qed.

Lemma chooseRand_log (conf : SpecConf) (m : Machine) :
  exists pr, log (snd (chooseRand UnixNano conf m)) = pr ++ log m
             /\ quiet pr = true /\ clean pr = true
             /\ count isTearDown pr = 0%nat.
Proof.
  unfold chooseRand. destruct (Rand conf); simpl.
  - exists []. auto.
  - exists [EvPrintSeed (UnixNano (world m))]. auto.
Qed.

Lemma runTearDown_spec (s : Spec) (e : option RunError) (m : Machine) :
  exists td,
    log (snd (runTearDown s e m)) = td ++ log m
    /\ quiet td = true
    /\ count isTearDown td = (if isNil (TearDown s) then 0 else 1)%nat
    /\ (forall x, e = Some x -> fst (runTearDown s e m) = Some x)
    /\ (e = None -> fst (runTearDown s e m) = None
                    \/ fst (runTearDown s e m) = Some (ErrTearDown None)).
Proof.
  unfold runTearDown.
  destruct (TearDown s) as [td|]; simpl.
  - destruct (td (world m)) as [[e2|] w'].
    + destruct e as [x|]; simpl.
      * exists [EvPrintTearDownErr e2; EvTearDown].
        repeat split; auto; congruence.
      * exists [EvTearDown]. repeat split; auto; congruence.
    + exists [EvTearDown]. simpl. repeat split; auto.
  - exists []. simpl. repeat split; auto.
Qed.

(** [Run] past the configuration checks and a successful setup. *)
Lemma Run_valid (s : Spec) (conf : SpecConf) (w : W) (c0 : Command)
  (cs : list Command) (initState : unit -> St) :
  Commands s = c0 :: cs ->
  InitState s = Some initState ->
  setupErr s w = None ->
  Run UnixNano s conf w
  = let o := runIterations UnixNano s conf c0 initState
               (snd (runSetup s (startOf w))) in
    ((itersOf conf, fst (runTearDown s (iterErr o) (iterMach o))),
     snd (runTearDown s (iterErr o) (iterMach o))).
Proof.
  intros Hc Hi Hs. unfold Run, setupErr in *. rewrite Hc, Hi. cbv zeta.
  destruct (runSetup s (startOf w)) as [serr m1]. simpl in Hs. subst serr.
  simpl. destruct (runTearDown s _ _). reflexivity.
Qed.

Lemma runIterations_shape (s : Spec) (conf : SpecConf) (c0 : Command)
  (initState : unit -> St) (m : Machine) :
  clean (log m) = true ->
  let o := runIterations UnixNano s conf c0 initState m in
  Recorded (iterErr o) (log (iterMach o))
  /\ exists new pr, log (iterMach o) = new ++ pr ++ log m
                    /\ forallb isIterEvent new = true
                    /\ quiet pr = true
                    /\ count isTearDown pr = 0%nat.
Proof.
  intros Hclean. unfold runIterations.
  destruct (chooseRand_log conf m) as [pr [Hlog [Hq [Hc Ht]]]].
  destruct (chooseRand UnixNano conf m) as [r m2]. simpl in *.
  split.
  - apply iterate_recorded. rewrite Hlog, forallb_app, Hc. exact Hclean.
  - destruct (iterate_extends c0 (Commands s) initState (itersOf conf)
                (cmdPerIterOf conf) (maxTriesOf s) r m2) as [new [Hn Hi]].
    exists new, pr. rewrite Hn, Hlog. auto.
Qed.

(** The log of any run: what teardown added, on top of the log of the
    iterations, whose last step is the one that failed, if any; an error
    recorded by the iterations is the one returned. *)
Lemma Run_log_shape (s : Spec) (conf : SpecConf) (w : W) :
  exists td L e,
    log (snd (Run UnixNano s conf w)) = td ++ L
    /\ quiet td = true
    /\ Recorded e L
    /\ (forall x, e = Some x -> snd (fst (Run UnixNano s conf w)) = Some x).
Proof.
  destruct (Commands s) as [|c0 cs] eqn:Hc.
  { exists [], [], None. unfold Run. rewrite Hc. simpl.
    repeat split; try constructor; auto; discriminate. }
  destruct (InitState s) as [init|] eqn:Hi.
  2:{ exists [], [], None. unfold Run. rewrite Hc, Hi. simpl.
      repeat split; try constructor; auto; discriminate. }
  destruct (setupErr s w) as [e|] eqn:Hs.
  { exists [], (log (snd (runSetup s (startOf w)))), None.
    unfold Run. rewrite Hc, Hi. cbv zeta.
    unfold setupErr in Hs. rewrite runSetup_log.
    destruct (runSetup s (startOf w)) as [serr m1] eqn:Hrs.
    simpl in Hs. subst serr. simpl.
    assert (log m1 = match Setup s with Some _ => [EvSetup] | None => [] end)
      as Hm1 by (rewrite <- runSetup_log with (w := w), Hrs; reflexivity).
    rewrite Hm1.
    repeat split; try discriminate.
    constructor. destruct (Setup s); reflexivity. }
  rewrite (Run_valid s conf w c0 cs init Hc Hi Hs). cbv zeta. simpl fst. simpl snd.
  set (m1 := snd (runSetup s (startOf w))).
  assert (clean (log m1) = true) as Hclean.
  { unfold m1. rewrite runSetup_log. destruct (Setup s); reflexivity. }
  destruct (runIterations_shape s conf c0 init m1 Hclean) as [Hrec _].
  set (o := runIterations UnixNano s conf c0 init m1) in *.
  destruct (runTearDown_spec s (iterErr o) (iterMach o))
    as [td [Hlog [Hq [_ [Hkeep _]]]]].
  exists td, (log (iterMach o)), (iterErr o). auto.
Qed.

Lemma clean_In (l : list Event) (ev : Event) :
  clean l = true -> In ev l -> isFailure ev = false.
Proof.
  intros Hc Hin. rewrite forallb_forall in Hc.
  specialize (Hc ev Hin). now apply negb_true_iff in Hc.
Qed.

Lemma quiet_In (l : list Event) (ev : Event) :
  quiet l = true -> In ev l -> isIterEvent ev = false.
Proof.
  intros Hq Hin. rewrite forallb_forall in Hq.
  specialize (Hq ev Hin). now apply negb_true_iff in Hq.
Qed.

Lemma count_app (p : Event -> bool) (a b : list Event) :
  count p (a ++ b) = (count p a + count p b)%nat.
Proof. unfold count. now rewrite filter_app, length_app. Qed.

Lemma count_iter_only (p : Event -> bool) (l : list Event) :
  (forall ev, isIterEvent ev = true -> p ev = false) ->
  forallb isIterEvent l = true -> count p l = 0%nat.
Proof.
  intros Hp. unfold count.
  induction l as [|ev l IH]; simpl; auto.
  intros Hall. apply andb_true_iff in Hall as [Hev Hl].
  rewrite (Hp ev Hev). auto.
Qed.

(** A verification that returned false is the last step of the
    iterations, and the error recorded is the one of that step. *)
Lemma Recorded_verify_false (e : option RunError) (L : list Event)
  (iter step : Z) (c : Command) :
  Recorded e L ->
  In (EvVerify iter step c false) L ->
  exists st out l,
    L = EvVerify iter step c false :: EvExec iter step c st out :: l
    /\ e = Some (ErrVerify iter step (Name c) (Description out) st
                   (NewState out)).
Proof.
  intros Hrec Hin.
  inversion Hrec as [l Hcl | i' k' c' st out x l Hx Hve Hcl
                    | i' k' c' st out l Hve Hcl]; subst.
  - apply (clean_In _ _ Hcl) in Hin. discriminate.
  - apply in_app_or in Hin as [Hin | [Hin | Hin]].
    + apply (clean_In _ _ Hve) in Hin. discriminate.
    + discriminate.
    + apply (clean_In _ _ Hcl) in Hin. discriminate.
  - rewrite Hve in *. simpl in Hin.
    destruct Hin as [Heq | [Heq | Hin]].
    + injection Heq as -> -> ->. simpl. eauto.
    + discriminate.
    + apply (clean_In _ _ Hcl) in Hin. discriminate.
Qed.

(** A command that returned an error is the last command of the
    iterations; only its own verification follows. *)
Lemma Recorded_exec_error (e : option RunError) (L : list Event)
  (iter step : Z) (c : Command) (st : St) (out : CommandOutput) (x : E) :
  Recorded e L ->
  In (EvExec iter step c st out) L ->
  Error out = Some x ->
  exists l,
    L = verifyEvents iter step c st out ++ EvExec iter step c st out :: l
    /\ (clean (verifyEvents iter step c st out) = true ->
        e = Some (ErrCmd iter step (Name c) (Description out) st x)).
Proof.
  intros Hrec Hin Hx.
  assert (isFailure (EvExec iter step c st out) = true) as Hfail
    by (simpl; rewrite Hx; reflexivity).
  inversion Hrec as [l Hcl | i' k' c' st' out' x' l Hx' Hve Hcl
                    | i' k' c' st' out' l Hve Hcl]; subst.
  - apply (clean_In _ _ Hcl) in Hin. congruence.
  - apply in_app_or in Hin as [Hin | [Hin | Hin]].
    + apply verifyEvents_inv in Hin as [vf [_ Hin]]. discriminate.
    + injection Hin as -> -> -> -> ->.
      exists l. split; auto. intros _. congruence.
    + apply (clean_In _ _ Hcl) in Hin. congruence.
  - apply in_app_or in Hin as [Hin | [Hin | Hin]].
    + apply verifyEvents_inv in Hin as [vf [_ Hin]]. discriminate.
    + injection Hin as -> -> -> -> ->.
      exists l. split; auto. rewrite Hve. simpl. discriminate.
    + apply (clean_In _ _ Hcl) in Hin. congruence.
Qed.

(** *** Configuration checks and setup *)

(** C6: a specification whose command list is empty or whose InitState is
    nil makes Run return zero and a configuration error, and no iteration
    is executed. *)
Theorem Run_config_error (s : Spec) (conf : SpecConf) (w : W) :
  Commands s = [] \/ InitState s = None ->
  (exists e, (e = ErrCommandsEmpty \/ e = ErrInitStateNil)
             /\ fst (Run UnixNano s conf w) = (0, Some e))
  /\ iterEvents (log (snd (Run UnixNano s conf w))) = [].
Proof.
  intros Hbad. unfold Run.
  destruct (Commands s) as [|c0 cs] eqn:Hc.
  - split; [exists ErrCommandsEmpty|]; auto.
  - destruct Hbad as [Hbad | Hbad]; [discriminate|].
    rewrite Hbad. split; [exists ErrInitStateNil|]; auto.
Qed.

(** C10: a specification that fails the configuration checks makes Run
    return without invoking Setup, TearDown or any Gen (nothing is logged
    and the world is the caller's); when both checks fail, the error is the
    one for the empty command list. *)
Theorem Run_invalid_spec_calls_nothing (s : Spec) (conf : SpecConf) (w : W) :
  Commands s = [] \/ InitState s = None ->
  snd (Run UnixNano s conf w) = startOf w
  /\ (Commands s = [] ->
      fst (Run UnixNano s conf w) = (0, Some ErrCommandsEmpty)).
Proof.
  intros Hbad. unfold Run.
  destruct (Commands s) as [|c0 cs] eqn:Hc.
  - split; auto.
  - destruct Hbad as [Hbad | Hbad]; [discriminate|].
    rewrite Hbad. split; [reflexivity | discriminate].
Qed.

(** C7: when Setup is present and returns an error, Run returns zero with
    the setup error; the log holds the call of Setup and nothing else, so
    no iteration ran and TearDown was not invoked. *)
Theorem Run_setup_error (s : Spec) (conf : SpecConf) (w w' : W)
  (setup : W -> option E * W) (e : E) :
  Commands s <> [] ->
  InitState s <> None ->
  Setup s = Some setup ->
  setup w = (Some e, w') ->
  Run UnixNano s conf w
  = ((0, Some (ErrSetup e)), {| world := w'; log := [EvSetup] |}).
Proof.
  intros Hc Hi Hs Hsetup. unfold Run.
  destruct (Commands s) as [|c0 cs]; [congruence|].
  destruct (InitState s) as [init|]; [|congruence].
  unfold runSetup. rewrite Hs. simpl. rewrite Hsetup. reflexivity.
Qed.
(** *** What [Run] returns *)

(** C5: past the configuration checks and a successful setup, the integer
    Run returns is the iteration count after defaulting (Iterations if at
    least 1, else 100), whatever error occurs on the way; a
    MaxCmdPerIter below 1 behaves as 20; and the error returned is the
    one the iterations recorded (of a command or of a verification), or,
    when they recorded none, nil or the teardown error. *)
Theorem Run_returns_configured_iterations (s : Spec) (conf : SpecConf)
  (w : W) :
  Commands s <> [] ->
  InitState s <> None ->
  setupErr s w = None ->
  fst (fst (Run UnixNano s conf w))
  = (if Iterations conf <? 1 then 100 else Iterations conf)
  /\ (MaxCmdPerIter conf < 1 ->
      Run UnixNano s conf w
      = Run UnixNano s {| Rand := Rand conf;
                          Iterations := Iterations conf;
                          MaxCmdPerIter := 20 |} w)
  /\ (snd (fst (Run UnixNano s conf w)) = errBeforeTearDown UnixNano s conf w
      \/ (errBeforeTearDown UnixNano s conf w = None
          /\ exists x, snd (fst (Run UnixNano s conf w))
                       = Some (ErrTearDown x)))
  /\ match errBeforeTearDown UnixNano s conf w with
     | None | Some (ErrCmd _ _ _ _ _ _) | Some (ErrVerify _ _ _ _ _ _) => True
     | Some _ => False
     end.
Proof.
  intros Hc Hi Hs.
  destruct (Commands s) as [|c0 cs] eqn:Hcs; [congruence|].
  destruct (InitState s) as [init|] eqn:His; [|congruence].
  split; [|split; [|split]].
  - rewrite (Run_valid s conf w c0 cs init Hcs His Hs). reflexivity.
  - intros Hlt. apply Z.ltb_lt in Hlt.
    unfold Run, runIterations, chooseRand, cmdPerIterOf, itersOf. simpl.
    rewrite Hlt. reflexivity.
  - rewrite (Run_valid s conf w c0 cs init Hcs His Hs). cbv zeta. simpl.
    unfold errBeforeTearDown. rewrite Hcs, His, Hs.
    set (o := runIterations UnixNano s conf c0 init _).
    destruct (runTearDown_spec s (iterErr o) (iterMach o))
      as [td [_ [_ [_ [Hkeep Hnone]]]]].
    destruct (iterErr o) as [x|] eqn:Ho.
    + left. now apply Hkeep.
    + destruct (Hnone eq_refl) as [Hr | Hr]; rewrite Hr; eauto.
  - unfold errBeforeTearDown. rewrite Hcs, His, Hs.
    set (m1 := snd (runSetup s (startOf w))).
    assert (clean (log m1) = true) as Hclean.
    { unfold m1. rewrite runSetup_log. destruct (Setup s); reflexivity. }
    destruct (runIterations_shape s conf c0 init m1 Hclean) as [Hrec _].
    inversion Hrec; exact I.
Qed.


(** C4: when the verification of an executed command returns false, Run
    returns an error that carries that iteration index, that step index and
    the name of that command, and that step is the last thing the
    iterations did: no later step and no later iteration runs. *)
Theorem Run_verify_false_reported (s : Spec) (conf : SpecConf) (w : W)
  (iter step : Z) (c : Command) :
  In (EvVerify iter step c false) (log (snd (Run UnixNano s conf w))) ->
  exists st out,
    snd (fst (Run UnixNano s conf w))
    = Some (ErrVerify iter step (Name c) (Description out) st (NewState out))
    /\ (exists e, snd (fst (Run UnixNano s conf w)) = Some e
                  /\ errIter e = Some iter /\ errStep e = Some step
                  /\ errCmdName e = Some (Name c))
    /\ exists post pre,
         log (snd (Run UnixNano s conf w))
         = post ++ EvVerify iter step c false
                   :: EvExec iter step c st out :: pre
         /\ quiet post = true.
Proof.
  intros Hin.
  destruct (Run_log_shape s conf w) as [td [L [e [Hlog [Hq [Hrec Hret]]]]]].
  rewrite Hlog in Hin. apply in_app_or in Hin as [Hin | Hin].
  { apply (quiet_In _ _ Hq) in Hin. discriminate. }
  destruct (Recorded_verify_false _ _ _ _ _ Hrec Hin) as [st [out [l [HL He]]]].
  exists st, out. rewrite (Hret _ He). split; [reflexivity|]. split.
  - eexists. split; [reflexivity|]. simpl. auto.
  - exists td, l. rewrite Hlog, HL. auto.
Qed.
(** C1 (as the code has it): when an executed command returns an error,
    the run stops there (nothing of the iterations follows that step but
    its own verification); the Verify of the command, when present, is
    still called for that step; and when Verify is absent or returns true,
    Run returns the command-execution error carrying that iteration, step,
    command name, description, pre-command state and underlying error. *)
Theorem Run_exec_error_stops_run (s : Spec) (conf : SpecConf) (w : W)
  (iter step : Z) (c : Command) (st : St) (out : CommandOutput) (x : E) :
  In (EvExec iter step c st out) (log (snd (Run UnixNano s conf w))) ->
  Error out = Some x ->
  (forall vf, Verify c = Some vf ->
     In (EvVerify iter step c (vf st (NewState out)))
        (log (snd (Run UnixNano s conf w))))
  /\ (exists post pre,
        log (snd (Run UnixNano s conf w))
        = post ++ verifyEvents iter step c st out
               ++ EvExec iter step c st out :: pre
        /\ quiet post = true)
  /\ ((Verify c = None
       \/ exists vf, Verify c = Some vf /\ vf st (NewState out) = true) ->
      snd (fst (Run UnixNano s conf w))
      = Some (ErrCmd iter step (Name c) (Description out) st x)).
Proof.
  intros Hin Hx.
  destruct (Run_log_shape s conf w) as [td [L [e [Hlog [Hq [Hrec Hret]]]]]].
  rewrite Hlog in Hin. apply in_app_or in Hin as [Hin | Hin].
  { apply (quiet_In _ _ Hq) in Hin. discriminate. }
  destruct (Recorded_exec_error _ _ _ _ _ _ _ _ Hrec Hin Hx) as [l [HL He]].
  split; [|split].
  - intros vf Hvf. rewrite Hlog, HL.
    apply in_or_app. right. apply in_or_app. left.
    unfold verifyEvents. rewrite Hvf. left. reflexivity.
  - exists td, l. rewrite Hlog, HL. auto.
  - intros Hver. apply Hret, He.
    unfold verifyEvents.
    destruct Hver as [Hnone | [vf [Hvf Hok]]].
    + rewrite Hnone. reflexivity.
    + rewrite Hvf, Hok. reflexivity.
Qed.

(** *** Commands that decline *)

Lemma while_done {A : Type} (cond : A -> bool) (body : A -> A) (fuel : nat)
  (a : A) :
  cond a = false -> while fuel cond body a = a.
Proof. intros Hc. destruct fuel; simpl; [|rewrite Hc]; reflexivity. Qed.

Lemma Forall_count_0 (p : Event -> bool) (P : Event -> Prop)
  (l : list Event) :
  (forall ev, P ev -> p ev = false) -> Forall P l -> count p l = 0%nat.
Proof.
  intros Hp Hall. unfold count.
  induction Hall as [|ev l Hev _ IH]; simpl; auto.
  now rewrite (Hp ev Hev).
Qed.

Lemma quiet_count_0 (p : Event -> bool) (l : list Event) :
  (forall ev, isIterEvent ev = false -> p ev = false) ->
  quiet l = true -> count p l = 0%nat.
Proof.
  intros Hp Hq. apply Forall_count_0 with (P := fun ev => isIterEvent ev = false).
  - exact Hp.
  - apply Forall_forall. intros ev Hin. eapply quiet_In; eauto.
Qed.

Section Declining.

Variables (c0 : Command) (cmds : list Command).
Variables (maxTries total iter : Z) (st : St).
Hypothesis all_decline : forall c, In c cmds -> declinesAt st c.
Hypothesis some_command : cmds <> [].

Lemma cmdStep_decline (v : CmdVars) :
  state v = st ->
  exists c r2 w2,
    cmdStep c0 cmds iter v
    = {| state := state v; cmdRun := cmdRun v; tries := tries v + 1;
         err := err v; rnd := r2;
         mach := emit (EvGen iter c (state v) true)
                   (setWorld w2 (mach v)) |}.
Proof.
  intros Hst. unfold cmdStep.
  pose proof (pick_in_range c0 cmds (rnd v) some_command) as Hin.
  destruct (Intn _ (rnd v)) as [k r1]. simpl in Hin.
  pose proof (all_decline _ Hin r1 (world (mach v))) as Hd.
  rewrite <- Hst in Hd.
  destruct (Gen _ _ _ _) as [[cf r2] w2]. simpl in Hd. subst cf.
  eauto.
Qed.

(** From [tries v] on, every call of [Gen] declines until [tries] reaches
    [maxTries]: that many calls, no command run, no error. *)
Lemma decline_loop (n : nat) :
  forall (fuel : nat) (v : CmdVars),
    state v = st ->
    Z.to_nat (maxTries - tries v) = n ->
    (n <= fuel)%nat ->
    tries v <= maxTries ->
    cmdRun v < total ->
    err v = None ->
    let v' := while fuel (cmdCond maxTries total) (cmdStep c0 cmds iter) v in
    cmdRun v' = cmdRun v /\ err v' = None /\ state v' = state v
    /\ tries v' = maxTries
    /\ exists gens, log (mach v') = gens ++ log (mach v)
                    /\ List.length gens = n
                    /\ Forall (isDeclineOf iter) gens.
Proof.
  induction n as [|n IH]; intros fuel v Hst Hn Hfuel Hle Hrun Herr.
  - assert (tries v = maxTries) as Heq by lia.
    rewrite while_done.
    + repeat split; auto. exists []. auto.
    + unfold cmdCond. rewrite Heq, Z.ltb_irrefl, andb_false_r. reflexivity.
  - destruct fuel as [|fuel]; [lia|].
    assert (cmdCond maxTries total v = true) as Hc.
    { unfold cmdCond. rewrite Herr. simpl.
      rewrite andb_true_r. apply andb_true_iff.
      split; apply Z.ltb_lt; lia. }
    cbn [while]. rewrite Hc.
    destruct (cmdStep_decline v Hst) as [c [r2 [w2 Hstep]]].
    rewrite Hstep.
    match goal with |- context [while fuel _ _ ?v1] => set (v1' := v1) end.
    destruct (IH fuel v1') as [H1 [H2 [H3 [H4 [gens [Hlog [Hlen Hall]]]]]]];
      unfold v1'; simpl; try lia; auto.
    cbv zeta. fold v1'. rewrite H1, H2, H3, H4. repeat split; auto.
    exists (gens ++ [EvGen iter c (state v) true]).
    rewrite Hlog. unfold v1'. simpl. rewrite <- app_assoc.
    split; [reflexivity|]. split.
    + rewrite length_app, Hlen. simpl. lia.
    + apply Forall_app. split; auto.
      constructor; [|constructor]. exists c, (state v). reflexivity.
Qed.

End Declining.

(** An iteration in whose state every command declines:
    [3 * len(s.Commands)] calls of [Gen] after [InitState], all declined,
    and no error. *)
Lemma iteration_all_decline (s : Spec) (conf : SpecConf) (c0 : Command)
  (initState : unit -> St) (o : IterVars) :
  (forall c, In c (Commands s) -> declinesAt (initState tt) c) ->
  iterErr o = None ->
  let o' := iteration c0 (Commands s) initState (cmdPerIterOf conf)
              (maxTriesOf s) o in
  iterErr o' = None
  /\ exists gens,
       log (iterMach o') = gens ++ EvInitState (i o) :: log (iterMach o)
       /\ List.length gens = (3 * List.length (Commands s))%nat
       /\ Forall (isDeclineOf (i o)) gens.
Proof.
  intros Hdecl Herr. unfold iteration.
  pose proof (Intn_range (cmdPerIterOf conf) (iterRnd o)
                (cmdPerIter_pos conf)) as Hr.
  destruct (Intn (cmdPerIterOf conf) (iterRnd o)) as [t r1].
  simpl in Hr. cbv zeta. simpl.
  destruct (Commands s) as [|c1 cs] eqn:Hcs.
  - rewrite while_done.
    + simpl. split; auto. exists []. auto.
    + unfold cmdCond, maxTriesOf. rewrite Hcs. simpl.
      now rewrite andb_false_r.
  - rewrite <- Hcs in *.
    assert (Commands s <> []) as Hne by (rewrite Hcs; discriminate).
    assert (0 <= maxTriesOf s) as Hmax by (unfold maxTriesOf; lia).
    assert (Z.to_nat (maxTriesOf s) <= cmdFuel (maxTriesOf s) (t + 1))%nat
      as Hfuel by (unfold cmdFuel; nia).
    match goal with |- context [while ?f _ _ ?v0] =>
      destruct (decline_loop c0 (Commands s) (maxTriesOf s) (t + 1) (i o)
                  (initState tt) Hdecl Hne (Z.to_nat (maxTriesOf s)) f v0)
        as [_ [He [_ [_ [gens [Hlog [Hlen Hall]]]]]]]
    end; simpl; try lia; auto.
    split; auto. exists gens. rewrite Hlog. simpl.
    split; [reflexivity|]. split; auto.
    rewrite Hlen. unfold maxTriesOf. lia.
Qed.

Lemma runTearDown_ok (s : Spec) (m : Machine) :
  (forall td w', TearDown s = Some td -> fst (td w') = None) ->
  fst (runTearDown s None m) = None.
Proof.
  intros Hok. unfold runTearDown.
  destruct (TearDown s) as [td|]; auto.
  specialize (Hok td (world m) eq_refl).
  destruct (td (world m)) as [e2 w']. simpl in Hok. subst e2. reflexivity.
Qed.
Lemma declined_count_isGen (iter : Z) (gens : list Event) :
  Forall (isDeclineOf iter) gens -> count isGen gens = List.length gens.
Proof.
  unfold count. induction 1 as [|ev l [c [st ->]] _ IH]; simpl; auto.
Qed.

Lemma iteration_i (c0 : Command) (cmds : list Command)
  (initState : unit -> St) (cmdPerIter maxTries : Z) (o : IterVars) :
  i (iteration c0 cmds initState cmdPerIter maxTries o) = i o + 1.
Proof.
  unfold iteration. destruct (Intn cmdPerIter (iterRnd o)). reflexivity.
Qed.

(** All the iterations run when every command declines: none records an
    error, none executes a command, and each calls [Gen]
    [3 * len(s.Commands)] times. *)
Lemma iterate_all_decline (s : Spec) (conf : SpecConf) (c0 : Command)
  (initState : unit -> St) (r : R) (m : Machine) :
  (forall c, In c (Commands s) -> declines c) ->
  let o := iterate c0 (Commands s) initState (itersOf conf)
             (cmdPerIterOf conf) (maxTriesOf s) r m in
  iterErr o = None
  /\ i o = itersOf conf
  /\ count isExec (log (iterMach o)) = count isExec (log m)
  /\ count isGen (log (iterMach o))
     = (count isGen (log m)
        + Z.to_nat (itersOf conf) * (3 * List.length (Commands s)))%nat.
Proof.
  intros Hdecl o.
  pose proof (itersOf_pos conf) as Hpos.
  assert (iterErr o = None
          /\ 0 <= i o <= itersOf conf
          /\ count isExec (log (iterMach o)) = count isExec (log m)
          /\ count isGen (log (iterMach o))
             = (count isGen (log m)
                + Z.to_nat (i o) * (3 * List.length (Commands s)))%nat)
    as [Herr [Hi [Hexec Hgen]]].
  { unfold o, iterate.
    apply while_inv
      with (P := fun o : IterVars =>
                   iterErr o = None
                   /\ 0 <= i o <= itersOf conf
                   /\ count isExec (log (iterMach o)) = count isExec (log m)
                   /\ count isGen (log (iterMach o))
                      = (count isGen (log m)
                         + Z.to_nat (i o)
                           * (3 * List.length (Commands s)))%nat).
    - intros a [Ha [Hia [Hea Hga]]] Hc.
      unfold iterCond in Hc. apply andb_true_iff in Hc as [Hlt _].
      apply Z.ltb_lt in Hlt.
      destruct (iteration_all_decline s conf c0 initState a
                  (fun c Hin => Hdecl c Hin (initState tt)) Ha)
        as [He [gens [Hgl [Hlen Hall]]]].
      rewrite iteration_i, Hgl, !count_app.
      rewrite (Forall_count_0 isExec (isDeclineOf (i a)))
        by (auto; intros ev [c [st ->]]; reflexivity).
      rewrite (declined_count_isGen (i a) gens Hall), Hlen.
      change (count isExec (EvInitState (i a) :: log (iterMach a)))
        with (count isExec (log (iterMach a))).
      change (count isGen (EvInitState (i a) :: log (iterMach a)))
        with (count isGen (log (iterMach a))).
      rewrite Hea, Hga.
      replace (Z.to_nat (i a + 1)) with (Datatypes.S (Z.to_nat (i a)))
        by lia.
      rewrite Nat.mul_succ_l.
      repeat split; auto; lia.
    - simpl. repeat split; auto; lia. }
  pose proof (iterate_exit c0 (Commands s) initState (itersOf conf)
                (cmdPerIterOf conf) (maxTriesOf s) r m) as Hexit.
  fold o in Hexit. unfold iterCond in Hexit.
  rewrite Herr, andb_true_r in Hexit. apply Z.ltb_ge in Hexit.
  assert (i o = itersOf conf) as Heq by lia.
  rewrite Heq in Hgen. auto.
Qed.

(** C3: in a state in which every command declines on every call, an
    iteration ends after exactly 3 x (number of commands) consecutive calls
    of Gen, with no command executed and no error; and when all commands
    decline unconditionally and Iterations = 3, a run (past the
    configuration checks, with setup and teardown succeeding) returns
    (3, nil) having executed no command, after 3 x (number of commands)
    calls of Gen in each of its three iterations. *)
Theorem Run_all_decline (s : Spec) (conf : SpecConf) (w : W) :
  (forall (c0 : Command) (initState : unit -> St) (o : IterVars),
     (forall c, In c (Commands s) -> declinesAt (initState tt) c) ->
     iterErr o = None ->
     let o' := iteration c0 (Commands s) initState (cmdPerIterOf conf)
                 (maxTriesOf s) o in
     iterErr o' = None
     /\ exists gens,
          log (iterMach o') = gens ++ EvInitState (i o) :: log (iterMach o)
          /\ List.length gens = (3 * List.length (Commands s))%nat
          /\ Forall (isDeclineOf (i o)) gens)
  /\ ((forall c, In c (Commands s) -> declines c) ->
      Commands s <> [] ->
      InitState s <> None ->
      setupErr s w = None ->
      (forall td w', TearDown s = Some td -> fst (td w') = None) ->
      Iterations conf = 3 ->
      fst (Run UnixNano s conf w) = (3, None)
      /\ count isExec (log (snd (Run UnixNano s conf w))) = 0%nat
      /\ count isGen (log (snd (Run UnixNano s conf w)))
         = (3 * (3 * List.length (Commands s)))%nat).
Proof.
  split.
  { intros c0 init o Hdecl Herr. now apply iteration_all_decline. }
  intros Hdecl Hc Hi Hs Htd Hit.
  destruct (Commands s) as [|c0 cs] eqn:Hcs; [congruence|].
  destruct (InitState s) as [init|] eqn:His; [|congruence].
  rewrite (Run_valid s conf w c0 cs init Hcs His Hs). cbv zeta. simpl.
  rewrite <- Hcs in *.
  set (m1 := snd (runSetup s (startOf w))).
  assert (count isExec (log m1) = 0%nat /\ count isGen (log m1) = 0%nat)
    as [Hm1 Hm1'].
  { unfold m1. rewrite runSetup_log. destruct (Setup s); split; reflexivity. }
  assert (itersOf conf = 3) as Hiters by (unfold itersOf; rewrite Hit; reflexivity).
  assert (iterErr (runIterations UnixNano s conf c0 init m1) = None
          /\ count isExec
               (log (iterMach (runIterations UnixNano s conf c0 init m1)))
             = 0%nat
          /\ count isGen
               (log (iterMach (runIterations UnixNano s conf c0 init m1)))
             = (3 * (3 * List.length (Commands s)))%nat)
    as [Herr [Hexec Hgen]].
  { unfold runIterations.
    destruct (chooseRand_log conf m1) as [pr [Hlog [Hq _]]].
    destruct (chooseRand UnixNano conf m1) as [r m2]. simpl in Hlog.
    destruct (iterate_all_decline s conf c0 init r m2 Hdecl)
      as [He [_ [Hx Hg]]].
    split; [exact He|].
    rewrite Hx, Hg, Hlog, !count_app, Hm1, Hm1', Hiters.
    rewrite (quiet_count_0 isExec pr), (quiet_count_0 isGen pr); auto;
      try (intros []; simpl; congruence). }
  set (o := runIterations UnixNano s conf c0 init m1) in *.
  rewrite Herr, (runTearDown_ok s (iterMach o) Htd), Hiters.
  split; [reflexivity|].
  destruct (runTearDown_spec s None (iterMach o)) as [tdl [Hlog [Hq _]]].
  rewrite Hlog, !count_app, Hexec, Hgen.
  rewrite (quiet_count_0 isExec tdl), (quiet_count_0 isGen tdl); auto;
    try (intros []; simpl; congruence).
  rewrite Hcs. simpl. split; lia.
Qed.

(** *** Determinism *)

Section Determinism.

Variables (c0 : Command) (cmds : list Command) (initState : unit -> St).
Variables (iters cmdPerIter maxTries : Z).
Hypothesis all_deterministic : forall c, In c cmds -> deterministic c.
Hypothesis first_command : In c0 cmds.

Lemma pick_In (k : Z) : In (pick c0 cmds k) cmds.
Proof.
  unfold pick.
  destruct (nth_in_or_default (Z.to_nat k) cmds c0) as [Hin | ->]; auto.
Qed.

Lemma cmdStep_agree (iter : Z) (v1 v2 : CmdVars) :
  cmdVarsAgree v1 v2 ->
  cmdVarsAgree (cmdStep c0 cmds iter v1) (cmdStep c0 cmds iter v2).
Proof.
  intros [Hst [Hrun [Htr [Herr [Hrnd Hlog]]]]].
  unfold cmdStep. rewrite <- Hrnd, <- Hst, <- Hrun, <- Htr, <- Herr, <- Hlog.
  destruct (Intn _ (rnd v1)) as [k r1].
  pose proof (all_deterministic _ (pick_In k) (state v1) r1
                (world (mach v1)) (world (mach v2))) as [Hr Hf].
  destruct (Gen (pick c0 cmds k) (state v1) r1 (world (mach v1)))
    as [[f1 r2] w2].
  destruct (Gen (pick c0 cmds k) (state v1) r1 (world (mach v2)))
    as [[f2 r2'] w2'].
  simpl in Hr, Hf. subst r2'.
  destruct f1 as [f1|], f2 as [f2|]; try contradiction.
  - specialize (Hf r2 w2 w2').
    destruct (f1 r2 w2) as [[out r3] w3].
    destruct (f2 r2 w2') as [[out' r3'] w3'].
    simpl in Hf. injection Hf as <- <-.
    repeat split; reflexivity.
  - repeat split; simpl; auto. now rewrite Hlog.
Qed.

Lemma cmdCond_agree (total : Z) (v1 v2 : CmdVars) :
  cmdVarsAgree v1 v2 ->
  cmdCond maxTries total v1 = cmdCond maxTries total v2.
Proof.
  intros [_ [Hrun [Htr [Herr _]]]].
  unfold cmdCond. now rewrite Hrun, Htr, Herr.
Qed.

Lemma iteration_agree (o1 o2 : IterVars) :
  iterVarsAgree o1 o2 ->
  iterVarsAgree (iteration c0 cmds initState cmdPerIter maxTries o1)
    (iteration c0 cmds initState cmdPerIter maxTries o2).
Proof.
  intros [Hi [Herr [Hrnd Hlog]]].
  unfold iteration. rewrite <- Hi, <- Herr, <- Hrnd.
  destruct (Intn cmdPerIter (iterRnd o1)) as [t r1].
  match goal with
  | |- iterVarsAgree {| i := _; iterErr := err ?a; iterRnd := _;
                        iterMach := _ |}
                     {| i := _; iterErr := err ?b; iterRnd := _;
                        iterMach := _ |} =>
      assert (cmdVarsAgree a b) as [_ [_ [_ [He [Hr Hl]]]]]
  end.
  { apply while_rel with (Rel := cmdVarsAgree).
    - intros a b Hab. now apply cmdCond_agree.
    - intros a b Hab _. now apply cmdStep_agree.
    - repeat split; simpl; auto. now rewrite Hlog. }
  repeat split; simpl; auto.
Qed.

Lemma iterate_agree (r : R) (m1 m2 : Machine) :
  log m1 = log m2 ->
  iterVarsAgree (iterate c0 cmds initState iters cmdPerIter maxTries r m1)
    (iterate c0 cmds initState iters cmdPerIter maxTries r m2).
Proof.
  intros Hlog. unfold iterate.
  apply while_rel with (Rel := iterVarsAgree).
  - intros a b [Hi [Herr _]]. unfold iterCond. now rewrite Hi, Herr.
  - intros a b Hab _. now apply iteration_agree.
  - repeat split; simpl; auto.
Qed.

End Determinism.
Lemma iterEvents_quiet_app (td L : list Event) :
  quiet td = true -> iterEvents (td ++ L) = iterEvents L.
Proof.
  intros Hq. unfold iterEvents. rewrite filter_app.
  replace (filter isIterEvent td) with (@nil Event); [reflexivity|].
  induction td as [|ev td IH]; simpl in *; auto.
  apply andb_true_iff in Hq as [Hev Htd].
  apply negb_true_iff in Hev. rewrite Hev. auto.
Qed.

Lemma Run_setup_failed_log (s : Spec) (conf : SpecConf) (w : W) (e : E) :
  setupErr s w = Some e ->
  iterEvents (log (snd (Run UnixNano s conf w))) = [].
Proof.
  intros Hs. unfold Run, setupErr in *.
  destruct (Commands s); auto.
  destruct (InitState s); auto. cbv zeta.
  pose proof (runSetup_log s w) as Hlog.
  destruct (runSetup s (startOf w)) as [serr m1]. simpl in *. subst serr.
  simpl. rewrite Hlog. destruct (Setup s); reflexivity.
Qed.


End EngineFacts.

(** ** The engine on concrete specifications *)

Ltac pick_event := vm_compute; repeat first [left; reflexivity | right].

(** C2: setup and all three iterations of [incSpec] complete without
    error and TearDown returns "disk full"; the error Run returns is the
    one line 166 builds from its own nil [err]: it wraps nothing, and it is
    the same error whatever TearDown returned. *)
Theorem Run_teardown_error_lost :
  setupErr incSpec 0 = None
  /\ errBeforeTearDown clockOf incSpec (confOf 7 3 2) 0 = None
  /\ fst (Run clockOf incSpec (confOf 7 3 2) 0) = (3, Some (ErrTearDown None))
  /\ Unwrap (@ErrTearDown Z string string None) = None
  /\ fst (Run clockOf incSpec' (confOf 7 3 2) 0)
     = fst (Run clockOf incSpec (confOf 7 3 2) 0).
Proof. vm_compute. repeat split. Qed.

(** Counterexample to C1 as stated: [cmdFailUnverified] returns an error
    at step 0 of iteration 0, its Verify is consulted for that step all the
    same, and the error Run returns is the verification error. *)
Lemma exec_error_still_verified :
  In (EvVerify 0 0 cmdFailUnverified false)
     (log (snd (Run clockOf unverifiedSpec (confOf 7 3 0) 0)))
  /\ snd (fst (Run clockOf unverifiedSpec (confOf 7 3 0) 0))
     = Some (ErrVerify 0 0 "create" "create"%string 0 0)
  /\
  ~ (forall iter step c st out x,
       In (EvExec iter step c st out)
          (log (snd (Run clockOf unverifiedSpec (confOf 7 3 0) 0))) ->
       Error out = Some x ->
       (forall ok, ~ In (EvVerify iter step c ok)
                       (log (snd (Run clockOf unverifiedSpec (confOf 7 3 0) 0))))
       /\ snd (fst (Run clockOf unverifiedSpec (confOf 7 3 0) 0))
          = Some (ErrCmd iter step (Name c) (Description out) st x)).
Proof.
  split; [pick_event|]. split; [reflexivity|].
  intros Hclaim.
  destruct (Hclaim 0 0 cmdFailUnverified 0 unverifiedOut "status 500"%string)
    as [Hnoverify Hret].
  - pick_event.
  - reflexivity.
  - vm_compute in Hret. discriminate.
Qed.

Lemma Run_exec_error_stops_run_witness :
  snd (fst (Run clockOf failSpec (confOf 7 3 0) 0))
  = Some (ErrCmd 0 1 "fail" "fail"%string 1 "boom"%string).
Proof.
  destruct (Run_exec_error_stops_run clockOf failSpec (confOf 7 3 0) 0
              0 1 cmdFail 1 failOut "boom"%string) as [_ [_ Hret]].
  - pick_event.
  - reflexivity.
  - apply Hret. left. reflexivity.
Defined.

Lemma Run_all_decline_witness :
  fst (Run clockOf declineSpec (confOf 7 3 0) 0) = (3, None)
  /\ count isExec (log (snd (Run clockOf declineSpec (confOf 7 3 0) 0)))
     = 0%nat
  /\ count isGen (log (snd (Run clockOf declineSpec (confOf 7 3 0) 0)))
     = 18%nat.
Proof.
  destruct (Run_all_decline clockOf declineSpec (confOf 7 3 0) 0) as [_ Hrun].
  apply Hrun.
  - intros c [<- | [<- | []]] st r w; reflexivity.
  - discriminate.
  - discriminate.
  - reflexivity.
  - intros td w' Htd. injection Htd as <-. reflexivity.
  - reflexivity.
Defined.

Lemma Run_verify_false_reported_witness :
  exists st out,
    snd (fst (Run clockOf driftSpec (confOf 7 5 2) 0))
    = Some (ErrVerify 0 1 (Name cmdDrift) (Description out) st (NewState out))
    /\ (exists e, snd (fst (Run clockOf driftSpec (confOf 7 5 2) 0)) = Some e
                  /\ errIter e = Some 0 /\ errStep e = Some 1
                  /\ errCmdName e = Some (Name cmdDrift))
    /\ exists post pre,
         log (snd (Run clockOf driftSpec (confOf 7 5 2) 0))
         = post ++ EvVerify 0 1 cmdDrift false
                   :: EvExec 0 1 cmdDrift st out :: pre
         /\ forallb (fun ev => negb (isIterEvent ev)) post = true.
Proof.
  apply (Run_verify_false_reported clockOf driftSpec (confOf 7 5 2) 0
           0 1 cmdDrift).
  pick_event.
Defined.

Lemma Run_returns_configured_iterations_witness :
  fst (fst (Run clockOf failSpec (confOf 7 0 0) 0)) = 100.
Proof.
  destruct (Run_returns_configured_iterations clockOf failSpec
              (confOf 7 0 0) 0) as [Hn _].
  - discriminate.
  - discriminate.
  - reflexivity.
  - exact Hn.
Defined.

Lemma Run_config_error_witness :
  (exists e : ZError,
      (e = ErrCommandsEmpty \/ e = ErrInitStateNil)
      /\ fst (Run clockOf emptySpec (confOf 7 3 0) 0) = (0, Some e))
  /\ iterEvents (log (snd (Run clockOf emptySpec (confOf 7 3 0) 0))) = [].
Proof.
  apply (Run_config_error clockOf emptySpec (confOf 7 3 0) 0).
  left. reflexivity.
Defined.

Lemma Run_invalid_spec_calls_nothing_witness :
  snd (Run clockOf nilSpec (confOf 7 3 0) 0) = startOf 0
  /\ fst (Run clockOf nilSpec (confOf 7 3 0) 0) = (0, Some ErrCommandsEmpty).
Proof.
  destruct (Run_invalid_spec_calls_nothing clockOf nilSpec (confOf 7 3 0) 0)
    as [Hm He].
  - right. reflexivity.
  - split; [exact Hm | apply He; reflexivity].
Defined.

Lemma Run_setup_error_witness :
  Run clockOf badSetupSpec (confOf 7 3 0) 0
  = ((0, Some (ErrSetup "no server"%string)),
     {| world := 1; log := [EvSetup] |}).
Proof.
  apply (Run_setup_error clockOf badSetupSpec (confOf 7 3 0) 0 1
           (failHook "no server") "no server"%string).
  - discriminate.
  - discriminate.
  - reflexivity.
  - reflexivity.
Defined.



(** * Further properties of the engine *)

Section EngineBounds.

Context {St D E W R : Type} `{RandSource R}.
Variable UnixNano : W -> Z.

Abbreviation Command := (@Command St D E W R).
Abbreviation Spec := (@Spec St D E W R).
Abbreviation SpecConf := (@SpecConf R).
Abbreviation RunError := (@RunError St D E).
Abbreviation Event := (@Event St D E W R).
Abbreviation Machine := (@Machine St D E W R).
Abbreviation CmdVars := (@CmdVars St D E W R).
Abbreviation IterVars := (@IterVars St D E W R).
Abbreviation CommandOutput := (@CommandOutput St D E).
Abbreviation clean := (forallb (fun ev : Event => negb (isFailure ev))).
Abbreviation quiet := (forallb (fun ev : Event => negb (isIterEvent ev))).

(** The two ways a pass through the inner loop goes. *)
Lemma cmdStep_cases (c0 : Command) (cmds : list Command) (iter : Z)
  (v : CmdVars) :
  let c := pick c0 cmds (fst (Intn (Z.of_nat (List.length cmds)) (rnd v))) in
  (exists r1 r2 w2,
     Gen c (state v) r1 (world (mach v)) = (None, r2, w2)
     /\ cmdStep c0 cmds iter v
        = {| state := state v; cmdRun := cmdRun v; tries := tries v + 1;
             err := err v; rnd := r2;
             mach := {| world := w2;
                        log := EvGen iter c (state v) true
                               :: log (mach v) |} |})
  \/ (exists r1 f r2 w2 out r3 w3,
        Gen c (state v) r1 (world (mach v)) = (Some f, r2, w2)
        /\ f r2 w2 = (out, r3, w3)
        /\ cmdStep c0 cmds iter v
           = {| state := NewState out; cmdRun := cmdRun v + 1; tries := 0;
                err := match Verify c with
                       | Some vf =>
                           if vf (state v) (NewState out)
                           then match Error out with
                                | Some e =>
                                    Some (ErrCmd iter (cmdRun v) (Name c)
                                            (Description out) (state v) e)
                                | None => err v
                                end
                           else Some (ErrVerify iter (cmdRun v) (Name c)
                                        (Description out) (state v)
                                        (NewState out))
                       | None =>
                           match Error out with
                           | Some e =>
                               Some (ErrCmd iter (cmdRun v) (Name c)
                                       (Description out) (state v) e)
                           | None => err v
                           end
                       end;
                rnd := r3;
                mach := {| world := w3;
                           log := verifyEvents iter (cmdRun v) c (state v) out
                                  ++ EvExec iter (cmdRun v) c (state v) out
                                  :: EvGen iter c (state v) false
                                  :: log (mach v) |} |}).
Proof.
  unfold cmdStep.
  destruct (Intn _ (rnd v)) as [k r1]. simpl.
  destruct (Gen _ _ _ _) as [[[f|] r2] w2] eqn:Hgen.
  - right. destruct (f r2 w2) as [[out r3] w3] eqn:Hf.
    exists r1, f, r2, w2, out, r3, w3. repeat split; auto.
  - left. exists r1, r2, w2. split; auto.
Qed.

Lemma count_cons (p : Event -> bool) (ev : Event) (l : list Event) :
  count p (ev :: l) = ((if p ev then 1 else 0) + count p l)%nat.
Proof. unfold count. simpl. destruct (p ev); reflexivity. Qed.

Lemma count_concat (p : Event -> bool) (a b : list Event) :
  count p (a ++ b) = (count p a + count p b)%nat.
Proof. unfold count. now rewrite filter_app, length_app. Qed.

Lemma count_verifyEvents (p : Event -> bool) (iter step : Z) (c : Command)
  (st : St) (out : CommandOutput) :
  (forall i k c' ok, p (EvVerify i k c' ok) = false) ->
  count p (verifyEvents iter step c st out) = 0%nat.
Proof.
  intros Hp. unfold verifyEvents. destruct (Verify c); auto.
  rewrite count_cons, Hp. reflexivity.
Qed.

Lemma count_quiet (p : Event -> bool) (l : list Event) :
  (forall ev, isIterEvent ev = false -> p ev = false) ->
  quiet l = true -> count p l = 0%nat.
Proof.
  intros Hp. induction l as [|ev l IH]; simpl; auto.
  intros Hq. apply andb_true_iff in Hq as [Hev Hl].
  apply negb_true_iff in Hev. rewrite count_cons, (Hp ev Hev). auto.
Qed.

(** *** Counting iterations and commands *)

Section Counting.

Variables (c0 : Command) (cmds : list Command) (initState : unit -> St).
Variables (iters cmdPerIter maxTries : Z).
Hypothesis cmdPerIter_positive : 0 < cmdPerIter.

(** What one pass does to the counters, and which error it can record. *)
Lemma cmdStep_counts (iter : Z) (v : CmdVars) :
  err v = None ->
  let v' := cmdStep c0 cmds iter v in
  count isInit (log (mach v')) = count isInit (log (mach v))
  /\ count isGen (log (mach v')) = Datatypes.S (count isGen (log (mach v)))
  /\ ((cmdRun v' = cmdRun v
       /\ count isExec (log (mach v')) = count isExec (log (mach v))
       /\ err v' = None)
      \/ (cmdRun v' = cmdRun v + 1
          /\ count isExec (log (mach v'))
             = Datatypes.S (count isExec (log (mach v)))))
  /\ (forall e, err v' = Some e ->
        errIter e = Some iter /\ errStep e = Some (cmdRun v)).
Proof.
  intros Herr v'. unfold v'.
  destruct (cmdStep_cases c0 cmds iter v)
    as [(r1 & r2 & w2 & _ & ->)
       | (r1 & f & r2 & w2 & out & r3 & w3 & _ & _ & ->)]; simpl.
  - rewrite !count_cons. simpl.
    split; [reflexivity|]. split; [reflexivity|]. split; [auto|].
    rewrite Herr. discriminate.
  - rewrite !count_concat, !count_cons. simpl.
    rewrite !count_verifyEvents by reflexivity.
    split; [reflexivity|]. split; [reflexivity|]. split; [auto|].
    rewrite Herr. intros e.
    destruct (Verify _) as [vf|]; [destruct (vf _ _)|];
      destruct (Error out); intros [= <-]; auto.
Qed.

Lemma iteration_counts (o : IterVars) :
  iterErr o = None ->
  let o' := iteration c0 cmds initState cmdPerIter maxTries o in
  i o' = i o + 1
  /\ count isInit (log (iterMach o'))
     = Datatypes.S (count isInit (log (iterMach o)))
  /\ (count isExec (log (iterMach o'))
      <= count isExec (log (iterMach o)) + Z.to_nat cmdPerIter)%nat
  /\ (forall e, iterErr o' = Some e ->
        errIter e = Some (i o)
        /\ exists k, errStep e = Some k /\ 0 <= k < cmdPerIter).
Proof.
  intros Herr. unfold iteration.
  pose proof (Intn_range cmdPerIter (iterRnd o) cmdPerIter_positive) as Hr.
  destruct (Intn cmdPerIter (iterRnd o)) as [t r1]. simpl in Hr. cbv zeta.
  set (total := t + 1).
  set (n0 := count isInit (log (iterMach o))).
  set (e0 := count isExec (log (iterMach o))).
  match goal with |- context [while ?f ?cnd ?body ?v0] =>
    assert (let v := while f cnd body v0 in
            0 <= cmdRun v <= total
            /\ count isInit (log (mach v)) = Datatypes.S n0
            /\ count isExec (log (mach v)) = (e0 + Z.to_nat (cmdRun v))%nat
            /\ (forall e, err v = Some e ->
                  errIter e = Some (i o)
                  /\ exists k, errStep e = Some k /\ 0 <= k < total))
      as Hinv
  end.
  { apply while_inv
      with (P := fun v : CmdVars =>
                   0 <= cmdRun v <= total
                   /\ count isInit (log (mach v)) = Datatypes.S n0
                   /\ count isExec (log (mach v))
                      = (e0 + Z.to_nat (cmdRun v))%nat
                   /\ (forall e, err v = Some e ->
                         errIter e = Some (i o)
                         /\ exists k, errStep e = Some k /\ 0 <= k < total)).
    - intros a [Hrun [Hinit [Hexec Herra]]] Hc.
      unfold cmdCond in Hc.
      apply andb_true_iff in Hc as [Hc Hnil].
      apply andb_true_iff in Hc as [Hlt _]. apply Z.ltb_lt in Hlt.
      assert (err a = None) as Ha by (destruct (err a); [discriminate|auto]).
      destruct (cmdStep_counts (i o) a Ha)
        as [Hi' [_ [Hcase Hidx]]].
      rewrite Hi'. split; [|split; [|split]].
      + destruct Hcase as [[-> _] | [-> _]]; lia.
      + exact Hinit.
      + destruct Hcase as [[-> [-> _]] | [-> ->]]; lia.
      + intros e He. destruct (Hidx e He) as [H1 H2].
        split; auto. exists (cmdRun a). split; auto. lia.
    - simpl. unfold total. split; [lia|].
      split; [rewrite count_cons; reflexivity|].
      split; [rewrite count_cons; simpl; fold e0; lia|].
      rewrite Herr. discriminate. }
  cbv zeta in Hinv. destruct Hinv as [Hrun [Hinit [Hexec Herrv]]].
  subst total n0 e0.
  simpl. split; [reflexivity|]. split; [exact Hinit|].
  split; [rewrite Hexec; lia|].
  intros e He. destruct (Herrv e He) as [Hit [k [Hk Hkr]]].
  split; auto. exists k. split; auto. lia.
Qed.

Lemma iterate_counts (r : R) (m : Machine) :
  let o := iterate c0 cmds initState iters cmdPerIter maxTries r m in
  0 <= i o
  /\ count isInit (log (iterMach o))
     = (count isInit (log m) + Z.to_nat (i o))%nat
  /\ (count isExec (log (iterMach o))
      <= count isExec (log m) + Z.to_nat (i o * cmdPerIter))%nat
  /\ (i o <= iters \/ i o = 0)
  /\ (iterErr o = None -> iters <= i o)
  /\ (forall e, iterErr o = Some e ->
        errIter e = Some (i o - 1) /\ 1 <= i o <= iters
        /\ exists k, errStep e = Some k /\ 0 <= k < cmdPerIter).
Proof.
  intros o.
  assert (0 <= i o
          /\ count isInit (log (iterMach o))
             = (count isInit (log m) + Z.to_nat (i o))%nat
          /\ (count isExec (log (iterMach o))
              <= count isExec (log m) + Z.to_nat (i o * cmdPerIter))%nat
          /\ (i o <= iters \/ i o = 0)
          /\ (forall e, iterErr o = Some e ->
                errIter e = Some (i o - 1) /\ 1 <= i o <= iters
                /\ exists k, errStep e = Some k /\ 0 <= k < cmdPerIter))
    as [H1 [H2 [H3 [H4 H5]]]].
  { unfold o, iterate.
    apply while_inv
      with (P := fun o : IterVars =>
                   0 <= i o
                   /\ count isInit (log (iterMach o))
                      = (count isInit (log m) + Z.to_nat (i o))%nat
                   /\ (count isExec (log (iterMach o))
                       <= count isExec (log m)
                          + Z.to_nat (i o * cmdPerIter))%nat
                   /\ (i o <= iters \/ i o = 0)
                   /\ (forall e, iterErr o = Some e ->
                         errIter e = Some (i o - 1) /\ 1 <= i o <= iters
                         /\ exists k, errStep e = Some k
                                      /\ 0 <= k < cmdPerIter)).
    - intros a [Ha1 [Ha2 [Ha3 [Ha4 Ha5]]]] Hc.
      unfold iterCond in Hc. apply andb_true_iff in Hc as [Hlt Hnil].
      apply Z.ltb_lt in Hlt.
      assert (iterErr a = None) as Ha
        by (destruct (iterErr a); [discriminate|auto]).
      destruct (iteration_counts a Ha) as [Hi [Hin [Hex Her]]].
      rewrite Hi, Hin. split; [lia|]. split; [lia|]. split; [|split].
      + eapply Nat.le_trans; [exact Hex|]. nia.
      + left. lia.
      + intros e He. destruct (Her e He) as [Hit Hst].
        replace (i a + 1 - 1) with (i a) by lia.
        split; [exact Hit|]. split; [lia|]. exact Hst.
    - simpl. split; [lia|]. split; [lia|]. split; [lia|]. split; [lia|].
      discriminate. }
  split; [exact H1|]. split; [exact H2|]. split; [exact H3|].
  split; [exact H4|]. split; [|exact H5].
  intros Hnone.
  pose proof (iterate_exit c0 cmds initState iters cmdPerIter maxTries r m)
    as Hexit.
  fold o in Hexit. unfold iterCond in Hexit.
  rewrite Hnone, andb_true_r in Hexit. now apply Z.ltb_ge in Hexit.
Qed.

End Counting.

(** *** The shape of a run *)

Lemma quiet_clean (l : list Event) : quiet l = true -> clean l = true.
Proof.
  induction l as [|ev l IH]; simpl; auto.
  intros Hq. apply andb_true_iff in Hq as [Hev Hl].
  rewrite (IH Hl), andb_true_r.
  destruct ev; simpl in *; auto; discriminate.
Qed.

(** What teardown logs. *)
Lemma runTearDown_log (s : Spec) (e : option RunError) (m : Machine) :
  exists td,
    log (snd (runTearDown s e m)) = td ++ log m
    /\ (td = [] \/ td = [EvTearDown]
        \/ exists e2, td = [EvPrintTearDownErr e2; EvTearDown]).
Proof.
  unfold runTearDown. destruct (TearDown s) as [td|]; simpl.
  - destruct (td (world m)) as [[e2|] w']; [destruct e as [x|]|]; simpl.
    + exists [EvPrintTearDownErr e2; EvTearDown]. eauto.
    + exists [EvTearDown]. auto.
    + exists [EvTearDown]. auto.
  - exists []. auto.
Qed.

(** A run that fails a configuration check or whose setup fails. *)
Lemma Run_not_started (s : Spec) (conf : SpecConf) (w : W) :
  Commands s = [] \/ InitState s = None \/ setupErr s w <> None ->
  (log (snd (Run UnixNano s conf w)) = []
   \/ log (snd (Run UnixNano s conf w)) = [EvSetup])
  /\ errBeforeTearDown UnixNano s conf w = None
  /\ exists e, snd (fst (Run UnixNano s conf w)) = Some e
               /\ errIter e = None.
Proof.
  intros Hbad. unfold Run, errBeforeTearDown, setupErr in *.
  destruct (Commands s) as [|c0 cs].
  { split; [left; reflexivity|]. split; [reflexivity|].
    eexists. split; reflexivity. }
  destruct (InitState s) as [init|].
  2:{ split; [left; reflexivity|]. split; [reflexivity|].
      eexists. split; reflexivity. }
  destruct Hbad as [Hbad | [Hbad | Hbad]]; try discriminate.
  cbv zeta. pose proof (runSetup_log s w) as Hlog.
  destruct (runSetup s (startOf w)) as [[e|] m1]; simpl in *;
    [|congruence].
  split; [|split; [reflexivity|eexists; split; reflexivity]].
  rewrite Hlog. destruct (Setup s); auto.
Qed.

(** A run that reaches the loops: the generator [r] and machine [m2] the
    loops start from, and what teardown adds. *)
Lemma Run_started (s : Spec) (conf : SpecConf) (w : W) (c0 : Command)
  (cs : list Command) (initState : unit -> St) :
  Commands s = c0 :: cs ->
  InitState s = Some initState ->
  setupErr s w = None ->
  exists r m2 td,
    let o := iterate c0 (Commands s) initState (itersOf conf)
               (cmdPerIterOf conf) (maxTriesOf s) r m2 in
    (r, m2) = chooseRand UnixNano conf (snd (runSetup s (startOf w)))
    /\ (log m2 = log (snd (runSetup s (startOf w)))
        \/ exists seed,
             log m2 = EvPrintSeed seed :: log (snd (runSetup s (startOf w))))
    /\ errBeforeTearDown UnixNano s conf w = iterErr o
    /\ log (snd (Run UnixNano s conf w)) = td ++ log (iterMach o)
    /\ quiet td = true
    /\ fst (fst (Run UnixNano s conf w)) = itersOf conf
    /\ (forall x, iterErr o = Some x ->
          snd (fst (Run UnixNano s conf w)) = Some x)
    /\ (iterErr o = None ->
          snd (fst (Run UnixNano s conf w)) = None
          \/ snd (fst (Run UnixNano s conf w)) = Some (ErrTearDown None))
    /\ (td = [] \/ td = [EvTearDown]
        \/ exists e2, td = [EvPrintTearDownErr e2; EvTearDown])
    /\ world (snd (Run UnixNano s conf w))
       = world (snd (runTearDown s (iterErr o) (iterMach o))).
Proof.
  intros Hcs His Hs.
  rewrite (Run_valid UnixNano s conf w c0 cs initState Hcs His Hs).
  unfold errBeforeTearDown. rewrite Hcs, His, Hs. rewrite <- Hcs.
  unfold runIterations. cbv zeta.
  set (m1 := snd (runSetup s (startOf w))).
  destruct (chooseRand UnixNano conf m1) as [r m2] eqn:Hch.
  set (o := iterate c0 (Commands s) initState (itersOf conf)
              (cmdPerIterOf conf) (maxTriesOf s) r m2).
  destruct (runTearDown_spec s (iterErr o) (iterMach o))
    as [td' [_ [_ [_ [Hkeep Hnone]]]]].
  destruct (runTearDown_log s (iterErr o) (iterMach o)) as [td [Hlog Htd]].
  exists r, m2, td. simpl.
  split; [reflexivity|]. split.
  { unfold chooseRand in Hch. destruct (Rand conf).
    - injection Hch as <- <-. left. reflexivity.
    - injection Hch as <- <-. right. eexists. reflexivity. }
  split; [reflexivity|]. split; [exact Hlog|]. split.
  { destruct Htd as [-> | [-> | [e2 ->]]]; reflexivity. }
  split; [reflexivity|]. split; [exact Hkeep|]. split; [exact Hnone|].
  split; [exact Htd | reflexivity].
Qed.

Lemma setup_log_counts (s : Spec) (w : W) (p : Event -> bool) :
  (forall ev, isIterEvent ev = false -> p ev = false) ->
  count p (log (snd (runSetup s (startOf w)))) = 0%nat.
Proof.
  intros Hp. rewrite runSetup_log.
  destruct (Setup s); auto. rewrite count_cons, Hp; auto.
Qed.

(** A nil error means the whole run went through: every configured
    iteration was started, no command returned an error and no
    verification returned false. *)
Theorem Run_nil_complete (s : Spec) (conf : SpecConf) (w : W) :
  snd (fst (Run UnixNano s conf w)) = None ->
  count isInit (log (snd (Run UnixNano s conf w))) = Z.to_nat (itersOf conf)
  /\ clean (log (snd (Run UnixNano s conf w))) = true.
Proof.
  intros Hnil. split.
  - destruct (Commands s) as [|c0 cs] eqn:Hcs.
    { destruct (Run_not_started s conf w (or_introl Hcs))
        as [_ [_ [e [He _]]]]. congruence. }
    destruct (InitState s) as [init|] eqn:His.
    2:{ destruct (Run_not_started s conf w (or_intror (or_introl His)))
          as [_ [_ [e [He _]]]]. congruence. }
    destruct (setupErr s w) as [x|] eqn:Hs.
    { assert (setupErr s w <> None) as Hne by congruence.
      destruct (Run_not_started s conf w (or_intror (or_intror Hne)))
        as [_ [_ [e [He _]]]]. congruence. }
    destruct (Run_started s conf w c0 cs init Hcs His Hs)
      as (r & m2 & td & _ & Hm2 & _ & Hlog & Hq & _ & Hkeep & _).
    pose proof (cmdPerIter_pos conf) as Hpos.
    destruct (iterate_counts c0 (Commands s) init (itersOf conf)
                (cmdPerIterOf conf) (maxTriesOf s) Hpos r m2)
      as [Hi0 [Hinit [_ [Hle [Hdone _]]]]].
    cbv zeta in Hkeep.
    destruct (iterErr (iterate c0 (Commands s) init (itersOf conf)
                         (cmdPerIterOf conf) (maxTriesOf s) r m2))
      as [x|] eqn:Hx.
    { rewrite (Hkeep x eq_refl) in Hnil. discriminate. }
    specialize (Hdone eq_refl). pose proof (itersOf_pos conf).
    rewrite Hlog, count_concat, Hinit.
    rewrite (count_quiet isInit td) by (auto; intros []; simpl; congruence).
    assert (count isInit (log m2) = 0%nat) as Hbase.
    { destruct Hm2 as [-> | [seed ->]]; [|rewrite count_cons];
        rewrite setup_log_counts; auto; intros []; simpl; congruence. }
    rewrite Hbase. destruct Hle; lia.
  - destruct (Run_log_shape UnixNano s conf w)
      as [td [L [e [Hlog [Hq [Hrec Hret]]]]]].
    rewrite Hlog, forallb_app, (quiet_clean td Hq). simpl.
    destruct e as [x|].
    + rewrite (Hret x eq_refl) in Hnil. discriminate.
    + inversion Hrec. assumption.
Qed.

(** The iteration and step an error reports are in range, and the
    iteration it reports is the last one started: a failure in iteration
    [k] is returned after exactly [k + 1] calls of InitState. *)
Theorem Run_error_located (s : Spec) (conf : SpecConf) (w : W)
  (e : RunError) (k : Z) :
  snd (fst (Run UnixNano s conf w)) = Some e ->
  errIter e = Some k ->
  0 <= k < itersOf conf
  /\ (exists j, errStep e = Some j /\ 0 <= j < cmdPerIterOf conf)
  /\ count isInit (log (snd (Run UnixNano s conf w))) = Z.to_nat (k + 1).
Proof.
  intros Hret Hk.
  assert (exists c0 cs init,
             Commands s = c0 :: cs /\ InitState s = Some init
             /\ setupErr s w = None) as (c0 & cs & init & Hcs & His & Hs).
  { destruct (Commands s) as [|c0 cs] eqn:Hcs.
    { destruct (Run_not_started s conf w (or_introl Hcs))
        as [_ [_ [e' [He Hn]]]]. congruence. }
    destruct (InitState s) as [init|] eqn:His.
    2:{ destruct (Run_not_started s conf w (or_intror (or_introl His)))
          as [_ [_ [e' [He Hn]]]]. congruence. }
    destruct (setupErr s w) as [x|] eqn:Hs.
    { assert (setupErr s w <> None) as Hne by congruence.
      destruct (Run_not_started s conf w (or_intror (or_intror Hne)))
        as [_ [_ [e' [He Hn]]]]. congruence. }
    eauto 6. }
  destruct (Run_started s conf w c0 cs init Hcs His Hs)
    as (r & m2 & td & _ & Hm2 & _ & Hlog & Hq & _ & Hkeep & Hnone & _).
  pose proof (cmdPerIter_pos conf) as Hpos.
  destruct (iterate_counts c0 (Commands s) init (itersOf conf)
              (cmdPerIterOf conf) (maxTriesOf s) Hpos r m2)
    as [Hi0 [Hinit [_ [_ [_ Herr]]]]].
  cbv zeta in Hkeep, Hnone.
  destruct (iterErr (iterate c0 (Commands s) init (itersOf conf)
                       (cmdPerIterOf conf) (maxTriesOf s) r m2))
    as [x|] eqn:Hx.
  2:{ destruct (Hnone eq_refl) as [Hr | Hr]; rewrite Hr in Hret;
        [discriminate|]. injection Hret as <-. discriminate. }
  rewrite (Hkeep x eq_refl) in Hret. injection Hret as ->.
  destruct (Herr e eq_refl) as [Hit [Hrange Hstep]].
  rewrite Hit in Hk. injection Hk as <-.
  split; [lia|]. split; [exact Hstep|].
  rewrite Hlog, count_concat, Hinit.
  rewrite (count_quiet isInit td) by (auto; intros []; simpl; congruence).
  assert (count isInit (log m2) = 0%nat) as Hbase.
  { destruct Hm2 as [-> | [seed ->]]; [|rewrite count_cons];
      rewrite setup_log_counts; auto; intros []; simpl; congruence. }
  rewrite Hbase. simpl. f_equal. lia.
Qed.

(** Whatever the commands do, a run executes at most
    (iterations x commands per iteration) commands. *)
Theorem Run_exec_bound (s : Spec) (conf : SpecConf) (w : W) :
  (count isExec (log (snd (Run UnixNano s conf w)))
   <= Z.to_nat (itersOf conf * cmdPerIterOf conf))%nat.
Proof.
  destruct (Commands s) as [|c0 cs] eqn:Hcs.
  { destruct (Run_not_started s conf w (or_introl Hcs)) as [[-> | ->] _];
      unfold count; simpl; lia. }
  destruct (InitState s) as [init|] eqn:His.
  2:{ destruct (Run_not_started s conf w (or_intror (or_introl His)))
        as [[-> | ->] _]; unfold count; simpl; lia. }
  destruct (setupErr s w) as [x|] eqn:Hs.
  { assert (setupErr s w <> None) as Hne by congruence.
    destruct (Run_not_started s conf w (or_intror (or_intror Hne)))
      as [[-> | ->] _]; unfold count; simpl; lia. }
  destruct (Run_started s conf w c0 cs init Hcs His Hs)
    as (r & m2 & td & _ & Hm2 & _ & Hlog & Hq & _).
  pose proof (cmdPerIter_pos conf) as Hpos.
  pose proof (itersOf_pos conf) as Hit.
  destruct (iterate_counts c0 (Commands s) init (itersOf conf)
              (cmdPerIterOf conf) (maxTriesOf s) Hpos r m2)
    as [Hi0 [_ [Hexec [Hle _]]]].
  rewrite Hlog, count_concat.
  rewrite (count_quiet isExec td) by (auto; intros []; simpl; congruence).
  assert (count isExec (log m2) = 0%nat) as Hbase.
  { destruct Hm2 as [-> | [seed ->]]; [|rewrite count_cons];
      rewrite setup_log_counts; auto; intros []; simpl; congruence. }
  rewrite Hbase in Hexec. simpl.
  eapply Nat.le_trans; [exact Hexec|]. simpl.
  apply Z2Nat.inj_le; nia.
Qed.

End EngineBounds.

Section EngineLog.

Context {St D E W R : Type} `{RandSource R}.
Variable UnixNano : W -> Z.

Abbreviation Command := (@Command St D E W R).
Abbreviation Spec := (@Spec St D E W R).
Abbreviation SpecConf := (@SpecConf R).
Abbreviation RunError := (@RunError St D E).
Abbreviation Event := (@Event St D E W R).
Abbreviation Machine := (@Machine St D E W R).
Abbreviation CmdVars := (@CmdVars St D E W R).
Abbreviation IterVars := (@IterVars St D E W R).
Abbreviation CommandOutput := (@CommandOutput St D E).
Abbreviation quiet := (forallb (fun ev : Event => negb (isIterEvent ev))).

(** *** State threading *)

Lemma stateAfter_verifyEvents (init : St) (iter step : Z) (c : Command)
  (st : St) (out : CommandOutput) (l : list Event) :
  stateAfter init (verifyEvents iter step c st out ++ l) = stateAfter init l.
Proof. unfold verifyEvents. destruct (Verify c); reflexivity. Qed.

Lemma stepsAfter_verifyEvents (iter step : Z) (c : Command) (st : St)
  (out : CommandOutput) (l : list Event) :
  stepsAfter (verifyEvents iter step c st out ++ l) = stepsAfter l.
Proof. unfold verifyEvents. destruct (Verify c); reflexivity. Qed.

Lemma threaded_verifyEvents (init : St) (iter step : Z) (c : Command)
  (st : St) (out : CommandOutput) (l : list Event) :
  threaded init l -> threaded init (verifyEvents iter step c st out ++ l).
Proof. unfold verifyEvents. destruct (Verify c); simpl; auto. Qed.

Lemma threaded_quiet_app (init : St) (td l : list Event) :
  quiet td = true -> threaded init l -> threaded init (td ++ l).
Proof.
  induction td as [|ev td IH]; simpl; auto.
  intros Hq Hl. apply andb_true_iff in Hq as [Hev Htd].
  split; [|auto]. destruct ev; simpl in *; auto; discriminate.
Qed.

Section Threading.

Variables (c0 : Command) (cmds : list Command) (initState : unit -> St).
Variables (iters cmdPerIter maxTries : Z).

Lemma cmdStep_threaded (iter : Z) (v : CmdVars) :
  threaded (initState tt) (log (mach v))
  /\ stateAfter (initState tt) (log (mach v)) = state v
  /\ stepsAfter (log (mach v)) = cmdRun v ->
  let v' := cmdStep c0 cmds iter v in
  threaded (initState tt) (log (mach v'))
  /\ stateAfter (initState tt) (log (mach v')) = state v'
  /\ stepsAfter (log (mach v')) = cmdRun v'.
Proof.
  intros [Hthr [Hst Hsteps]] v'. unfold v'.
  destruct (cmdStep_cases c0 cmds iter v)
    as [(r1 & r2 & w2 & _ & ->)
       | (r1 & f & r2 & w2 & out & r3 & w3 & _ & _ & ->)]; simpl.
  - auto.
  - rewrite stateAfter_verifyEvents, stepsAfter_verifyEvents. simpl.
    split; [|split; [reflexivity | now rewrite Hsteps]].
    apply threaded_verifyEvents. simpl. auto.
Qed.

Lemma iteration_threaded (o : IterVars) :
  threaded (initState tt) (log (iterMach o)) ->
  threaded (initState tt)
    (log (iterMach (iteration c0 cmds initState cmdPerIter maxTries o))).
Proof.
  intros Hthr. unfold iteration.
  destruct (Intn cmdPerIter (iterRnd o)) as [t r1]. simpl.
  apply (while_inv (cmdCond maxTries (t + 1)) (cmdStep c0 cmds (i o))
           (fun v : CmdVars =>
              threaded (initState tt) (log (mach v))
              /\ stateAfter (initState tt) (log (mach v)) = state v
              /\ stepsAfter (log (mach v)) = cmdRun v)).
  - intros a Ha _. now apply cmdStep_threaded.
  - simpl. auto.
Qed.

Lemma iterate_threaded (r : R) (m : Machine) :
  threaded (initState tt) (log m) ->
  threaded (initState tt)
    (log (iterMach (iterate c0 cmds initState iters cmdPerIter maxTries
                      r m))).
Proof.
  intros Hthr. unfold iterate.
  apply (while_inv (iterCond iters)
           (iteration c0 cmds initState cmdPerIter maxTries)
           (fun o : IterVars => threaded (initState tt) (log (iterMach o)))).
  - intros a Ha _. now apply iteration_threaded.
  - exact Hthr.
Qed.

End Threading.

Lemma started_log_quiet (s : Spec) (w : W) (m2 : Machine) :
  (log m2 = log (snd (runSetup s (startOf w)))
   \/ exists seed,
        log m2 = EvPrintSeed seed :: log (snd (runSetup s (startOf w)))) ->
  quiet (log m2) = true.
Proof.
  rewrite runSetup_log.
  intros [-> | [seed ->]]; destruct (Setup s); reflexivity.
Qed.

Lemma Run_threaded (s : Spec) (conf : SpecConf) (w : W)
  (initState : unit -> St) :
  InitState s = Some initState ->
  threaded (initState tt) (log (snd (Run UnixNano s conf w))).
Proof.
  intros His.
  destruct (Commands s) as [|c0 cs] eqn:Hcs.
  { destruct (Run_not_started UnixNano s conf w (or_introl Hcs))
      as [[-> | ->] _]; simpl; auto. }
  destruct (setupErr s w) as [x|] eqn:Hs.
  { assert (setupErr s w <> None) as Hne by congruence.
    destruct (Run_not_started UnixNano s conf w
                (or_intror (or_intror Hne))) as [[-> | ->] _]; simpl; auto. }
  destruct (Run_started UnixNano s conf w c0 cs initState Hcs His Hs)
    as (r & m2 & td & _ & Hm2 & _ & Hlog & Hq & _).
  rewrite Hlog. apply threaded_quiet_app; auto.
  apply iterate_threaded.
  rewrite <- (app_nil_r (log m2)).
  apply threaded_quiet_app; simpl; auto.
  eapply started_log_quiet; eauto.
Qed.

Lemma threaded_split (init : St) (post : list Event) (ev : Event)
  (pre : list Event) :
  threaded init (post ++ ev :: pre) ->
  match ev with
  | EvGen _ _ st _ => st = stateAfter init pre
  | EvExec _ step _ st _ => st = stateAfter init pre /\ step = stepsAfter pre
  | _ => True
  end.
Proof.
  induction post as [|x post IH]; simpl.
  - intros [Hev _]. exact Hev.
  - intros [_ Hrest]. exact (IH Hrest).
Qed.

Lemma stepsAfter_nonneg (l : list Event) : 0 <= stepsAfter l.
Proof. induction l as [|[] l IH]; simpl; lia. Qed.

(** Before the first command of an iteration the state is the initial
    one. *)
Lemma stepsAfter_zero (init : St) (l : list Event) :
  stepsAfter l = 0 -> stateAfter init l = init.
Proof.
  induction l as [|ev l IH]; simpl; auto.
  destruct ev; auto.
  pose proof (stepsAfter_nonneg l). lia.
Qed.

(** The model state is threaded through a run as the loop is written:
    every Gen and every command of an iteration is given the state
    InitState returned, or the NewState of the command run just before
    it in that iteration; a decline leaves the state unchanged; and the
    step index of a command is the number of commands run before it in
    its iteration. *)
Theorem Run_threads_state (s : Spec) (conf : SpecConf) (w : W)
  (initState : unit -> St) (post pre : list Event) (ev : Event) :
  InitState s = Some initState ->
  log (snd (Run UnixNano s conf w)) = post ++ ev :: pre ->
  (forall iter c st declined,
     ev = EvGen iter c st declined ->
     st = stateAfter (initState tt) pre)
  /\ (forall iter step c st out,
        ev = EvExec iter step c st out ->
        st = stateAfter (initState tt) pre /\ step = stepsAfter pre).
Proof.
  intros His Hlog.
  pose proof (Run_threaded s conf w initState His) as Hthr.
  rewrite Hlog in Hthr. apply threaded_split in Hthr.
  split; intros; subst ev; exact Hthr.
Qed.

(** *** Where logged calls come from, and state invariants *)

Lemma Forall_verifyEvents (P : Event -> Prop) (iter step : Z) (c : Command)
  (st : St) (out : CommandOutput) :
  (forall ok, P (EvVerify iter step c ok)) ->
  Forall P (verifyEvents iter step c st out).
Proof.
  intros HP. unfold verifyEvents. destruct (Verify c); auto.
Qed.

Lemma Forall_quiet (P : Event -> Prop) (l : list Event) :
  (forall ev, isIterEvent ev = false -> P ev) ->
  quiet l = true -> Forall P l.
Proof.
  intros HP. induction l as [|ev l IH]; simpl; auto.
  intros Hq. apply andb_true_iff in Hq as [Hev Hl].
  constructor; auto. apply HP. now apply negb_true_iff in Hev.
Qed.

Section Provenance.

Variables (c0 : Command) (cmds : list Command) (initState : unit -> St).
Variables (iters cmdPerIter maxTries : Z).
Variable Inv : St -> Prop.
Hypothesis first_command : In c0 cmds.
Hypothesis Inv_init : Inv (initState tt).
Hypothesis Inv_step :
  forall c st out,
    In c cmds -> Inv st -> passes c st out -> Inv (NewState out).

Let good (ev : Event) : Prop := produced cmds ev /\ respects Inv ev.

Lemma cmdStep_good (iter : Z) (v : CmdVars) :
  err v = None ->
  Forall good (log (mach v)) /\ (err v = None -> Inv (state v)) ->
  let v' := cmdStep c0 cmds iter v in
  Forall good (log (mach v')) /\ (err v' = None -> Inv (state v')).
Proof.
  intros Herr [Hlog Hinv] v'. unfold v'.
  specialize (Hinv Herr).
  pose proof (pick_In c0 cmds first_command
                (fst (Intn (Z.of_nat (List.length cmds)) (rnd v)))) as Hin.
  destruct (cmdStep_cases c0 cmds iter v)
    as [(r1 & r2 & w2 & Hgen & ->)
       | (r1 & f & r2 & w2 & out & r3 & w3 & Hgen & Hf & ->)]; simpl.
  - split; [|auto]. constructor; auto.
    split; [|exact Hinv]. split; [exact Hin|].
    exists r1, (world (mach v)). now rewrite Hgen.
  - set (c := pick c0 cmds _) in *.
    assert (exists r w f' r' w',
               fst (fst (Gen c (state v) r w)) = Some f'
               /\ fst (fst (f' r' w')) = out) as Hprod.
    { exists r1, (world (mach v)), f, r2, w2.
      rewrite Hgen, Hf. auto. }
    split.
    + apply Forall_app. split.
      * apply Forall_verifyEvents. intros ok. split; [exact Hin | exact I].
      * constructor; [split; [split; auto | exact Hinv]|].
        constructor; auto.
        split; [|exact Hinv]. split; [exact Hin|].
        exists r1, (world (mach v)). now rewrite Hgen.
    + rewrite Herr. intros Hnone. apply (Inv_step c (state v) out Hin Hinv).
      split; [exact Hprod|].
      destruct (Verify c) as [vf|] eqn:Hv.
      * destruct (vf (state v) (NewState out)) eqn:Hok; [|discriminate].
        destruct (Error out); [discriminate|].
        split; auto. intros vf' [= <-]. exact Hok.
      * destruct (Error out); [discriminate|].
        split; auto. discriminate.
Qed.

Lemma iteration_good (o : IterVars) :
  iterErr o = None ->
  Forall good (log (iterMach o)) ->
  Forall good
    (log (iterMach (iteration c0 cmds initState cmdPerIter maxTries o))).
Proof.
  intros Herr Hlog. unfold iteration.
  destruct (Intn cmdPerIter (iterRnd o)) as [t r1]. simpl.
  apply (while_inv (cmdCond maxTries (t + 1)) (cmdStep c0 cmds (i o))
           (fun v : CmdVars =>
              Forall good (log (mach v))
              /\ (err v = None -> Inv (state v)))).
  - intros a Ha Hc. apply cmdStep_good; auto.
    unfold cmdCond in Hc. apply andb_true_iff in Hc as [_ Hc].
    destruct (err a); [discriminate | reflexivity].
  - simpl. split; auto. constructor; auto. split; exact I.
Qed.

Lemma iterate_good (r : R) (m : Machine) :
  Forall good (log m) ->
  Forall good
    (log (iterMach (iterate c0 cmds initState iters cmdPerIter maxTries
                      r m))).
Proof.
  intros Hlog. unfold iterate.
  apply (while_inv (iterCond iters)
           (iteration c0 cmds initState cmdPerIter maxTries)
           (fun o : IterVars => Forall good (log (iterMach o)))).
  - intros a Ha Hc. apply iteration_good; auto.
    unfold iterCond in Hc. apply andb_true_iff in Hc as [_ Hc].
    destruct (iterErr a); [discriminate | reflexivity].
  - exact Hlog.
Qed.

End Provenance.

(** Every event of a run is [produced] by the commands of the
    specification and [respects] an invariant the passing steps keep. *)
Lemma Run_good (s : Spec) (conf : SpecConf) (w : W) (Inv : St -> Prop) :
  (forall initState, InitState s = Some initState -> Inv (initState tt)) ->
  (forall c st out,
     In c (Commands s) -> Inv st -> passes c st out -> Inv (NewState out)) ->
  Forall (fun ev => produced (Commands s) ev /\ respects Inv ev)
    (log (snd (Run UnixNano s conf w))).
Proof.
  intros Hinit Hstep.
  assert (forall l : list Event,
             quiet l = true ->
             Forall (fun ev => produced (Commands s) ev /\ respects Inv ev) l)
    as Hquiet.
  { intros l. apply Forall_quiet.
    intros []; simpl; try discriminate; intros _; split; exact I. }
  destruct (Commands s) as [|c0 cs] eqn:Hcs.
  { destruct (Run_not_started UnixNano s conf w (or_introl Hcs))
      as [[-> | ->] _]; apply Hquiet; reflexivity. }
  destruct (InitState s) as [init|] eqn:His.
  2:{ destruct (Run_not_started UnixNano s conf w
                  (or_intror (or_introl His)))
        as [[-> | ->] _]; apply Hquiet; reflexivity. }
  destruct (setupErr s w) as [x|] eqn:Hs.
  { assert (setupErr s w <> None) as Hne by congruence.
    destruct (Run_not_started UnixNano s conf w
                (or_intror (or_intror Hne)))
      as [[-> | ->] _]; apply Hquiet; reflexivity. }
  destruct (Run_started UnixNano s conf w c0 cs init Hcs His Hs)
    as (r & m2 & td & _ & Hm2 & _ & Hlog & Hq & _).
  rewrite Hlog. apply Forall_app. split; [now apply Hquiet|].
  rewrite <- Hcs in *.
  apply iterate_good; auto.
  - rewrite Hcs. left. reflexivity.
  - apply Hquiet. eapply started_log_quiet; eauto.
Qed.


(** A property of the model state that holds of the initial state and is
    kept by every step that records no error holds whenever Gen or a
    command is called. *)
Theorem Run_state_invariant (s : Spec) (conf : SpecConf) (w : W)
  (Inv : St -> Prop) :
  (forall initState, InitState s = Some initState -> Inv (initState tt)) ->
  (forall c st out,
     In c (Commands s) -> Inv st -> passes c st out -> Inv (NewState out)) ->
  Forall (respects Inv) (log (snd (Run UnixNano s conf w))).
Proof.
  intros Hinit Hstep.
  eapply Forall_impl; [|apply (Run_good s conf w Inv Hinit Hstep)].
  intros ev [_ Hr]. exact Hr.
Qed.

End EngineLog.

Section EngineRuns.

Context {St D E W R : Type} `{RandSource R}.
Variable UnixNano : W -> Z.

Abbreviation Command := (@Command St D E W R).
Abbreviation Spec := (@Spec St D E W R).
Abbreviation SpecConf := (@SpecConf R).
Abbreviation RunError := (@RunError St D E).
Abbreviation Event := (@Event St D E W R).
Abbreviation Machine := (@Machine St D E W R).
Abbreviation CmdVars := (@CmdVars St D E W R).
Abbreviation IterVars := (@IterVars St D E W R).
Abbreviation CommandOutput := (@CommandOutput St D E).
Abbreviation quiet := (forallb (fun ev : Event => negb (isIterEvent ev))).

Lemma Run_setup_failed (s : Spec) (conf : SpecConf) (w : W) (c0 : Command)
  (cs : list Command) (initState : unit -> St) (e : E) :
  Commands s = c0 :: cs ->
  InitState s = Some initState ->
  setupErr s w = Some e ->
  Run UnixNano s conf w
  = ((0, Some (ErrSetup e)), snd (runSetup s (startOf w))).
Proof.
  intros Hcs His Hs. unfold Run, setupErr in *. rewrite Hcs, His. cbv zeta.
  destruct (runSetup s (startOf w)) as [serr m1]. simpl in *. now subst.
Qed.


(** *** Commands that always run *)

Section AlwaysRun.

Variables (c0 : Command) (cmds : list Command) (initState : unit -> St).
Variables (iters cmdPerIter maxTries : Z).
Hypothesis first_command : In c0 cmds.

Lemma cmdStep_runs (iter : Z) (v : CmdVars) :
  (forall c, In c cmds -> neverDeclines c) ->
  let v' := cmdStep c0 cmds iter v in
  cmdRun v' = cmdRun v + 1
  /\ count isExec (log (mach v'))
     = Datatypes.S (count isExec (log (mach v)))
  /\ count isGen (log (mach v')) = Datatypes.S (count isGen (log (mach v)))
  /\ count isInit (log (mach v')) = count isInit (log (mach v)).
Proof.
  intros Hnever v'. unfold v'.
  pose proof (pick_In c0 cmds first_command
                (fst (Intn (Z.of_nat (List.length cmds)) (rnd v)))) as Hin.
  destruct (cmdStep_cases c0 cmds iter v)
    as [(r1 & r2 & w2 & Hgen & _)
       | (r1 & f & r2 & w2 & out & r3 & w3 & _ & _ & ->)].
  - exfalso. apply (Hnever _ Hin (state v) r1 (world (mach v))).
    now rewrite Hgen.
  - simpl. rewrite !count_concat, !count_cons. simpl.
    rewrite !count_verifyEvents by reflexivity. auto.
Qed.

Lemma cmdStep_passes (iter : Z) (v : CmdVars) :
  (forall c, In c cmds -> alwaysPasses c) ->
  err v = None ->
  err (cmdStep c0 cmds iter v) = None.
Proof.
  intros Hpass Herr.
  pose proof (pick_In c0 cmds first_command
                (fst (Intn (Z.of_nat (List.length cmds)) (rnd v)))) as Hin.
  destruct (cmdStep_cases c0 cmds iter v)
    as [(r1 & r2 & w2 & _ & ->)
       | (r1 & f & r2 & w2 & out & r3 & w3 & Hgen & Hf & ->)]; simpl; auto.
  destruct (Hpass _ Hin (state v) r1 (world (mach v))) as [f' [Hf' Hok]].
  rewrite Hgen in Hf'. simpl in Hf'. injection Hf' as <-.
  destruct (Hok r2 w2) as [Hnoerr Hver]. rewrite Hf in Hnoerr, Hver.
  simpl in Hnoerr, Hver. rewrite Hnoerr.
  destruct (Verify _) as [vf|]; auto.
  now rewrite (Hver vf eq_refl).
Qed.

Lemma alwaysPasses_neverDeclines (c : Command) :
  alwaysPasses c -> neverDeclines c.
Proof.
  intros Hp st r w. destruct (Hp st r w) as [f [Hf _]]. congruence.
Qed.

(** With one command per iteration and commands that never decline, an
    iteration runs exactly one command. *)
Lemma iteration_one_command (o : IterVars) :
  (forall c, In c cmds -> neverDeclines c) ->
  iterErr o = None ->
  0 < maxTries ->
  let o' := iteration c0 cmds initState 1 maxTries o in
  count isExec (log (iterMach o'))
  = Datatypes.S (count isExec (log (iterMach o)))
  /\ count isInit (log (iterMach o'))
     = Datatypes.S (count isInit (log (iterMach o))).
Proof.
  intros Hnever Herr Hmax. unfold iteration.
  pose proof (Intn_range 1 (iterRnd o) eq_refl) as Hr.
  destruct (Intn 1 (iterRnd o)) as [t r1]. simpl in Hr.
  assert (t = 0) as -> by lia. cbv zeta. simpl (0 + 1).
  assert (exists n, cmdFuel maxTries 1 = Datatypes.S n) as [n ->].
  { unfold cmdFuel. exists (Z.to_nat (1 * (maxTries + 1) + maxTries) - 1)%nat.
    lia. }
  cbn [while].
  set (v0 := {| state := initState tt; cmdRun := 0; tries := 0;
                err := iterErr o; rnd := r1;
                mach := emit (EvInitState (i o)) (iterMach o) |}).
  assert (cmdCond maxTries 1 v0 = true) as ->.
  { unfold cmdCond, v0. simpl. rewrite Herr. simpl.
    rewrite andb_true_r. apply Z.ltb_lt. exact Hmax. }
  destruct (cmdStep_runs (i o) v0 Hnever) as [Hrun [Hexec [_ Hinit]]].
  rewrite while_done.
  - simpl. rewrite Hexec, Hinit. unfold v0. simpl.
    rewrite !count_cons. simpl. auto.
  - unfold cmdCond. rewrite Hrun. unfold v0. simpl. reflexivity.
Qed.

Lemma iterate_one_command (r : R) (m : Machine) :
  (forall c, In c cmds -> neverDeclines c) ->
  0 < maxTries ->
  let o := iterate c0 cmds initState iters 1 maxTries r m in
  (count isExec (log (iterMach o)) + count isInit (log m))%nat
  = (count isInit (log (iterMach o)) + count isExec (log m))%nat.
Proof.
  intros Hnever Hmax. unfold iterate.
  apply (while_inv (iterCond iters) (iteration c0 cmds initState 1 maxTries)
           (fun o : IterVars =>
              (count isExec (log (iterMach o)) + count isInit (log m))%nat
              = (count isInit (log (iterMach o))
                 + count isExec (log m))%nat)).
  - intros a Ha Hc.
    unfold iterCond in Hc. apply andb_true_iff in Hc as [_ Hc].
    assert (iterErr a = None) as Herr
      by (destruct (iterErr a); [discriminate | reflexivity]).
    destruct (iteration_one_command a Hnever Herr Hmax) as [-> ->]. lia.
  - simpl. lia.
Qed.

Lemma iterate_all_pass (r : R) (m : Machine) :
  (forall c, In c cmds -> alwaysPasses c) ->
  let o := iterate c0 cmds initState iters cmdPerIter maxTries r m in
  iterErr o = None
  /\ (count isGen (log (iterMach o)) + count isExec (log m))%nat
     = (count isExec (log (iterMach o)) + count isGen (log m))%nat.
Proof.
  intros Hpass. unfold iterate.
  apply (while_inv (iterCond iters)
           (iteration c0 cmds initState cmdPerIter maxTries)
           (fun o : IterVars =>
              iterErr o = None
              /\ (count isGen (log (iterMach o)) + count isExec (log m))%nat
                 = (count isExec (log (iterMach o))
                    + count isGen (log m))%nat)).
  - intros a [Herr Hcnt] _. unfold iteration.
    destruct (Intn cmdPerIter (iterRnd a)) as [t r1]. simpl.
    apply (while_inv (cmdCond maxTries (t + 1)) (cmdStep c0 cmds (i a))
             (fun v : CmdVars =>
                err v = None
                /\ (count isGen (log (mach v)) + count isExec (log m))%nat
                   = (count isExec (log (mach v))
                      + count isGen (log m))%nat)).
    + intros v [Hv Hvc] _. split; [now apply cmdStep_passes|].
      destruct (cmdStep_runs (i a) v
                  (fun c Hin => alwaysPasses_neverDeclines c (Hpass c Hin)))
        as [_ [-> [-> _]]]. lia.
    + simpl. split; auto; rewrite !count_cons; simpl; exact Hcnt.
  - simpl. split; [reflexivity | lia].
Qed.

End AlwaysRun.

(** When every command always runs, never returns an error and always
    verifies, no Gen call is a decline, the iterations record no error,
    and a run (past the configuration checks, with setup and teardown
    succeeding) returns its iteration count and nil. *)
Theorem Run_all_pass (s : Spec) (conf : SpecConf) (w : W) :
  (forall c, In c (Commands s) -> alwaysPasses c) ->
  errBeforeTearDown UnixNano s conf w = None
  /\ count isGen (log (snd (Run UnixNano s conf w)))
     = count isExec (log (snd (Run UnixNano s conf w)))
  /\ (Commands s <> [] ->
      InitState s <> None ->
      setupErr s w = None ->
      (forall td w', TearDown s = Some td -> fst (td w') = None) ->
      fst (Run UnixNano s conf w) = (itersOf conf, None)).
Proof.
  intros Hpass.
  assert (Commands s = [] \/ InitState s = None \/ setupErr s w <> None
          \/ exists c0 cs init,
               Commands s = c0 :: cs /\ InitState s = Some init
               /\ setupErr s w = None) as Hcases.
  { destruct (Commands s) as [|c0 cs]; auto.
    destruct (InitState s) as [init|]; auto.
    destruct (setupErr s w) eqn:Hs; [right; right; left; congruence|].
    right. right. right. eauto 6. }
  destruct Hcases as [Hb | [Hb | [Hb | (c0 & cs & init & Hcs & His & Hs)]]].
  1-3: destruct (Run_not_started UnixNano s conf w) as [Hlog [Herr _]];
       auto; split; [exact Herr|]; split;
       [destruct Hlog as [-> | ->]; reflexivity | intros; congruence].
  destruct (Run_started UnixNano s conf w c0 cs init Hcs His Hs)
    as (r & m2 & td & _ & Hm2 & Hebt & Hlog & Hq & Hn & _ & _ & Htd & _).
  assert (In c0 (Commands s)) as Hin by (rewrite Hcs; left; reflexivity).
  destruct (iterate_all_pass c0 (Commands s) init (itersOf conf)
              (cmdPerIterOf conf) (maxTriesOf s) Hin r m2 Hpass)
    as [Herr Hcnt].
  cbv zeta in Hebt. rewrite Hebt. split; [exact Herr|]. split.
  - rewrite Hlog, !count_concat.
    assert (count isGen (log m2) = 0%nat /\ count isExec (log m2) = 0%nat)
      as [Hg He].
    { split; apply count_quiet;
        try (eapply started_log_quiet; eauto);
        intros []; simpl; congruence. }
    rewrite Hg, He in Hcnt.
    rewrite (count_quiet isGen td), (count_quiet isExec td); auto;
      try (intros []; simpl; congruence). lia.
  - intros _ _ _ Hok.
    rewrite (Run_valid UnixNano s conf w c0 cs init Hcs His Hs).
    cbv zeta. unfold runIterations.
    destruct (chooseRand UnixNano conf (snd (runSetup s (startOf w))))
      as [r' m2'] eqn:Hch.
    destruct (iterate_all_pass c0 (Commands s) init (itersOf conf)
                (cmdPerIterOf conf) (maxTriesOf s) Hin r' m2' Hpass)
      as [Herr' _].
    simpl. rewrite Herr', (runTearDown_ok s _ Hok). reflexivity.
Qed.

(** When commands never decline and MaxCmdPerIter is 1, every iteration
    started runs exactly one command, whatever the seed. *)
Theorem Run_one_command_per_iteration (s : Spec) (conf : SpecConf) (w : W) :
  (forall c, In c (Commands s) -> neverDeclines c) ->
  MaxCmdPerIter conf = 1 ->
  count isExec (log (snd (Run UnixNano s conf w)))
  = count isInit (log (snd (Run UnixNano s conf w))).
Proof.
  intros Hnever Hone.
  assert (Commands s = [] \/ InitState s = None \/ setupErr s w <> None
          \/ exists c0 cs init,
               Commands s = c0 :: cs /\ InitState s = Some init
               /\ setupErr s w = None) as Hcases.
  { destruct (Commands s) as [|c0 cs]; auto.
    destruct (InitState s) as [init|]; auto.
    destruct (setupErr s w) eqn:Hs; [right; right; left; congruence|].
    right. right. right. eauto 6. }
  destruct Hcases as [Hb | [Hb | [Hb | (c0 & cs & init & Hcs & His & Hs)]]].
  1-3: destruct (Run_not_started UnixNano s conf w) as [[-> | ->] _];
       auto.
  destruct (Run_started UnixNano s conf w c0 cs init Hcs His Hs)
    as (r & m2 & td & _ & Hm2 & _ & Hlog & Hq & _).
  assert (In c0 (Commands s)) as Hin by (rewrite Hcs; left; reflexivity).
  assert (cmdPerIterOf conf = 1) as Hper
    by (unfold cmdPerIterOf; rewrite Hone; reflexivity).
  assert (0 < maxTriesOf s) as Hmax
    by (unfold maxTriesOf; rewrite Hcs; simpl List.length; lia).
  rewrite Hper in Hlog.
  pose proof (iterate_one_command c0 (Commands s) init (itersOf conf)
                (maxTriesOf s) Hin r m2 Hnever Hmax) as Hcnt.
  cbv zeta in Hcnt.
  assert (count isInit (log m2) = 0%nat /\ count isExec (log m2) = 0%nat)
    as [Hi He].
  { split; apply count_quiet;
      try (eapply started_log_quiet; eauto);
      intros []; simpl; congruence. }
  rewrite Hlog, !count_concat.
  rewrite (count_quiet isInit td), (count_quiet isExec td); auto;
    try (intros []; simpl; congruence). lia.
Qed.

End EngineRuns.

Section EngineReplay.

Context {St D E W R : Type} `{RandSource R}.
Variable UnixNano : W -> Z.

Abbreviation Command := (@Command St D E W R).
Abbreviation Spec := (@Spec St D E W R).
Abbreviation SpecConf := (@SpecConf R).
Abbreviation RunError := (@RunError St D E).
Abbreviation Event := (@Event St D E W R).
Abbreviation Machine := (@Machine St D E W R).
Abbreviation CmdVars := (@CmdVars St D E W R).
Abbreviation IterVars := (@IterVars St D E W R).

(** *** Work done by a run *)

Lemma while_steps {A : Type} (cond : A -> bool) (body : A -> A)
  (cnt : A -> nat) :
  (forall a, cond a = true -> (cnt (body a) <= Datatypes.S (cnt a))%nat) ->
  forall fuel a, (cnt (while fuel cond body a) <= cnt a + fuel)%nat.
Proof.
  intros Hstep fuel.
  induction fuel as [|fuel IH]; intros a; simpl; [lia|].
  destruct (cond a) eqn:Hc; [|lia].
  specialize (IH (body a)). specialize (Hstep a Hc). lia.
Qed.

Section GenBound.

Variables (c0 : Command) (cmds : list Command) (initState : unit -> St).
Variables (iters cmdPerIter maxTries : Z).
Hypothesis cmdPerIter_positive : 0 < cmdPerIter.
Hypothesis maxTries_nonneg : 0 <= maxTries.

Lemma iteration_gen_bound (o : IterVars) :
  let o' := iteration c0 cmds initState cmdPerIter maxTries o in
  (count isGen (log (iterMach o'))
   <= count isGen (log (iterMach o)) + cmdFuel maxTries cmdPerIter)%nat.
Proof.
  unfold iteration.
  pose proof (Intn_range cmdPerIter (iterRnd o) cmdPerIter_positive) as Hr.
  destruct (Intn cmdPerIter (iterRnd o)) as [t r1]. simpl in Hr. simpl.
  assert (forall a : CmdVars,
             cmdCond maxTries (t + 1) a = true ->
             (count isGen (log (mach (cmdStep c0 cmds (i o) a)))
              <= Datatypes.S (count isGen (log (mach a))))%nat) as Hstep.
  { intros a Hc.
    assert (err a = None) as Ha.
    { unfold cmdCond in Hc. apply andb_true_iff in Hc as [_ Hc].
      destruct (err a); [discriminate | reflexivity]. }
    destruct (cmdStep_counts c0 cmds (i o) a Ha) as [_ [Hg _]]. lia. }
  match goal with |- context [while ?f ?cnd ?body ?v0] =>
    pose proof (while_steps cnd body
                  (fun v : CmdVars => count isGen (log (mach v)))
                  Hstep f v0) as Hw
  end.
  simpl in Hw. eapply Nat.le_trans; [exact Hw|].
  rewrite count_cons. simpl.
  assert (cmdFuel maxTries (t + 1) <= cmdFuel maxTries cmdPerIter)%nat
    by (unfold cmdFuel; apply Z2Nat.inj_le; nia).
  lia.
Qed.

Lemma iterate_gen_bound (r : R) (m : Machine) :
  let o := iterate c0 cmds initState iters cmdPerIter maxTries r m in
  0 <= i o /\ (i o <= iters \/ i o = 0)
  /\ (count isGen (log (iterMach o))
      <= count isGen (log m)
         + Z.to_nat (i o) * cmdFuel maxTries cmdPerIter)%nat.
Proof.
  unfold iterate.
  apply (while_inv (iterCond iters)
           (iteration c0 cmds initState cmdPerIter maxTries)
           (fun o : IterVars =>
              0 <= i o /\ (i o <= iters \/ i o = 0)
              /\ (count isGen (log (iterMach o))
                  <= count isGen (log m)
                     + Z.to_nat (i o) * cmdFuel maxTries cmdPerIter)%nat)).
  - intros a [Hi [Hle Hcnt]] Hc.
    unfold iterCond in Hc. apply andb_true_iff in Hc as [Hlt _].
    apply Z.ltb_lt in Hlt.
    pose proof (iteration_gen_bound a) as Hb. cbv zeta in Hb.
    rewrite iteration_i.
    split; [lia|]. split; [left; lia|].
    replace (Z.to_nat (i a + 1)) with (Datatypes.S (Z.to_nat (i a))) by lia.
    rewrite Nat.mul_succ_l. lia.
  - simpl. split; [lia|]. split; [right; reflexivity | lia].
Qed.

End GenBound.


(** *** Replaying a run from the seed it printed *)

Section Frame.

Variables (c0 : Command) (cmds : list Command) (initState : unit -> St).
Variables (iters cmdPerIter maxTries : Z).
Variables (b1 b2 : list Event).

Lemma cmdStep_framed (iter : Z) (v1 v2 : CmdVars) :
  cmdVarsFramed b1 b2 v1 v2 ->
  cmdVarsFramed b1 b2 (cmdStep c0 cmds iter v1) (cmdStep c0 cmds iter v2).
Proof.
  intros [Hst [Hrun [Htr [Herr [Hrnd [Hw [new [Hl1 Hl2]]]]]]]].
  unfold cmdStep. rewrite <- Hrnd, <- Hst, <- Hrun, <- Htr, <- Herr, <- Hw.
  destruct (Intn _ (rnd v1)) as [k r1].
  destruct (Gen _ _ _ _) as [[[f|] r2] w2].
  - destruct (f r2 w2) as [[out r3] w3]. unfold cmdVarsFramed. simpl.
    do 6 (split; [reflexivity|]).
    exists (verifyEvents iter (cmdRun v1) (pick c0 cmds k) (state v1) out
            ++ EvExec iter (cmdRun v1) (pick c0 cmds k) (state v1) out
            :: EvGen iter (pick c0 cmds k) (state v1) false :: new).
    rewrite Hl1, Hl2, <- !app_assoc. simpl. split; reflexivity.
  - unfold cmdVarsFramed. simpl.
    do 6 (split; [reflexivity|]).
    exists (EvGen iter (pick c0 cmds k) (state v1) true :: new).
    rewrite Hl1, Hl2. split; reflexivity.
Qed.

Lemma iteration_framed (o1 o2 : IterVars) :
  iterVarsFramed b1 b2 o1 o2 ->
  iterVarsFramed b1 b2
    (iteration c0 cmds initState cmdPerIter maxTries o1)
    (iteration c0 cmds initState cmdPerIter maxTries o2).
Proof.
  intros [Hi [Herr [Hrnd [Hw [new [Hl1 [Hl2 Hnew]]]]]]].
  pose proof (iteration_extends c0 cmds initState cmdPerIter maxTries o1)
    as [ext [Hext Hiter]].
  revert Hext. unfold iteration. rewrite <- Hi, <- Herr, <- Hrnd.
  destruct (Intn cmdPerIter (iterRnd o1)) as [t r1].
  match goal with
  | |- log (iterMach {| i := _; iterErr := _; iterRnd := _;
                        iterMach := mach ?a |}) = _ ->
       iterVarsFramed _ _ _ {| i := _; iterErr := _; iterRnd := _;
                               iterMach := mach ?b |} =>
      assert (cmdVarsFramed b1 b2 a b)
        as [_ [_ [_ [He [Hr [Hw' [new' [Hn1 Hn2]]]]]]]]
  end.
  { apply while_rel with (Rel := cmdVarsFramed b1 b2).
    - intros a b [_ [Hrun [Htr [He _]]]].
      unfold cmdCond. now rewrite Hrun, Htr, He.
    - intros a b Hab _. now apply cmdStep_framed.
    - unfold cmdVarsFramed. simpl.
      do 5 (split; [reflexivity|]). split; [exact Hw|].
      exists (EvInitState (i o1) :: new). rewrite Hl1, Hl2.
      split; reflexivity. }
  simpl. intros Hext. unfold iterVarsFramed. simpl.
  split; [reflexivity|]. split; [exact He|]. split; [exact Hr|].
  split; [exact Hw'|].
  exists new'. split; [exact Hn1|]. split; [exact Hn2|].
  rewrite Hn1, Hl1, app_assoc in Hext.
  apply app_inv_tail in Hext. rewrite Hext, forallb_app, Hiter, Hnew.
  reflexivity.
Qed.

Lemma iterate_framed (r : R) (m1 m2 : Machine) :
  world m1 = world m2 -> log m1 = b1 -> log m2 = b2 ->
  iterVarsFramed b1 b2
    (iterate c0 cmds initState iters cmdPerIter maxTries r m1)
    (iterate c0 cmds initState iters cmdPerIter maxTries r m2).
Proof.
  intros Hw Hl1 Hl2. unfold iterate.
  apply while_rel with (Rel := iterVarsFramed b1 b2).
  - intros a b [Hi [Herr _]]. unfold iterCond. now rewrite Hi, Herr.
  - intros a b Hab _. now apply iteration_framed.
  - unfold iterVarsFramed. simpl.
    do 3 (split; [reflexivity|]). split; [exact Hw|].
    exists []. simpl. auto.
Qed.

End Frame.

Lemma runTearDown_framed (s : Spec) (e : option RunError)
  (m1 m2 : Machine) :
  world m1 = world m2 ->
  fst (runTearDown s e m1) = fst (runTearDown s e m2)
  /\ world (snd (runTearDown s e m1)) = world (snd (runTearDown s e m2))
  /\ exists td,
       log (snd (runTearDown s e m1)) = td ++ log m1
       /\ log (snd (runTearDown s e m2)) = td ++ log m2
       /\ forall seed, ~ In (EvPrintSeed seed) td.
Proof.
  intros Hw. unfold runTearDown. rewrite <- Hw.
  destruct (TearDown s) as [td|]; simpl.
  - destruct (td (world m1)) as [[e2|] w']; [destruct e as [x|]|]; simpl.
    + do 2 (split; [reflexivity|]).
      exists [EvPrintTearDownErr e2; EvTearDown].
      do 2 (split; [reflexivity|]).
      intros seed [Hin | [Hin | []]]; discriminate.
    + do 2 (split; [reflexivity|]). exists [EvTearDown].
      do 2 (split; [reflexivity|]).
      intros seed [Hin | []]; discriminate.
    + do 2 (split; [reflexivity|]). exists [EvTearDown].
      do 2 (split; [reflexivity|]).
      intros seed [Hin | []]; discriminate.
  - split; [reflexivity|]. split; [exact Hw|]. exists [].
    do 2 (split; [reflexivity|]). intros seed [].
Qed.

Lemma iter_events_no_seed (new : list Event) (seed : Z) :
  forallb isIterEvent new = true -> ~ In (EvPrintSeed seed) new.
Proof.
  intros Hall Hin. rewrite forallb_forall in Hall.
  specialize (Hall _ Hin). discriminate.
Qed.

Lemma setup_log_no_seed (s : Spec) (w : W) (seed : Z) :
  ~ In (EvPrintSeed seed) (log (snd (runSetup s (startOf w)))).
Proof.
  rewrite runSetup_log. destruct (Setup s); simpl; [|tauto].
  intros [Hin | []]. discriminate.
Qed.

(** A seed is printed only when no random source was supplied, and it
    replays the run: from the same world, a run given
    [rand.New(rand.NewSource(seed))] for the printed seed returns the
    same result, leaves the same world, and logs the same calls, in the
    same order, minus the line that printed the seed. *)
Theorem Run_replay_printed_seed (s : Spec) (conf : SpecConf) (w : W)
  (seed : Z) :
  In (EvPrintSeed seed) (log (snd (Run UnixNano s conf w))) ->
  let conf' := {| Rand := Some (NewRand seed);
                  Iterations := Iterations conf;
                  MaxCmdPerIter := MaxCmdPerIter conf |} in
  Rand conf = None
  /\ fst (Run UnixNano s conf' w) = fst (Run UnixNano s conf w)
  /\ world (snd (Run UnixNano s conf' w))
     = world (snd (Run UnixNano s conf w))
  /\ exists a b,
       log (snd (Run UnixNano s conf w)) = a ++ EvPrintSeed seed :: b
       /\ log (snd (Run UnixNano s conf' w)) = a ++ b.
Proof.
  intros Hin conf'.
  assert (exists c0 cs init,
             Commands s = c0 :: cs /\ InitState s = Some init
             /\ setupErr s w = None) as (c0 & cs & init & Hcs & His & Hs).
  { destruct (Commands s) as [|c0 cs] eqn:Hcs.
    { destruct (Run_not_started UnixNano s conf w (or_introl Hcs))
        as [[Hl | Hl] _]; rewrite Hl in Hin; simpl in Hin;
        [tauto | destruct Hin as [Hin | []]; discriminate]. }
    destruct (InitState s) as [init|] eqn:His.
    2:{ destruct (Run_not_started UnixNano s conf w
                    (or_intror (or_introl His)))
          as [[Hl | Hl] _]; rewrite Hl in Hin; simpl in Hin;
          [tauto | destruct Hin as [Hin | []]; discriminate]. }
    destruct (setupErr s w) as [x|] eqn:Hs.
    { assert (setupErr s w <> None) as Hne by congruence.
      destruct (Run_not_started UnixNano s conf w
                  (or_intror (or_intror Hne)))
        as [[Hl | Hl] _]; rewrite Hl in Hin; simpl in Hin;
        [tauto | destruct Hin as [Hin | []]; discriminate]. }
    eauto 6. }
  revert Hin.
  rewrite (Run_valid UnixNano s conf w c0 cs init Hcs His Hs).
  rewrite (Run_valid UnixNano s conf' w c0 cs init Hcs His Hs).
  cbv zeta. unfold runIterations, chooseRand. simpl.
  set (m1 := snd (runSetup s (startOf w))).
  change (itersOf conf') with (itersOf conf).
  change (cmdPerIterOf conf') with (cmdPerIterOf conf).
  destruct (Rand conf) as [r0|] eqn:Hrand.
  { (* a supplied source prints nothing *)
    intros Hin. exfalso.
    destruct (runTearDown_framed s
                (iterErr (iterate c0 (Commands s) init (itersOf conf)
                            (cmdPerIterOf conf) (maxTriesOf s) r0 m1))
                (iterMach (iterate c0 (Commands s) init (itersOf conf)
                             (cmdPerIterOf conf) (maxTriesOf s) r0 m1))
                _ eq_refl) as [_ [_ [td [Hl [_ Htd]]]]].
    rewrite Hl in Hin.
    destruct (iterate_extends c0 (Commands s) init (itersOf conf)
                (cmdPerIterOf conf) (maxTriesOf s) r0 m1)
      as [new [Hnew Hiter]].
    rewrite Hnew in Hin.
    apply in_app_or in Hin as [Hin | Hin]; [now apply (Htd seed)|].
    apply in_app_or in Hin as [Hin | Hin].
    - now apply (iter_events_no_seed new seed Hiter).
    - now apply (setup_log_no_seed s w seed). }
  set (seed0 := UnixNano (world m1)).
  set (o1 := iterate c0 (Commands s) init (itersOf conf) (cmdPerIterOf conf)
               (maxTriesOf s) (NewRand seed0) (emit (EvPrintSeed seed0) m1)).
  destruct (iterate_framed c0 (Commands s) init (itersOf conf)
              (cmdPerIterOf conf) (maxTriesOf s)
              (EvPrintSeed seed0 :: log m1) (log m1)
              (NewRand seed0) (emit (EvPrintSeed seed0) m1) m1
              eq_refl eq_refl eq_refl)
    as [_ [Herr [_ [Hw [new [Hn1 [Hn2 Hiter]]]]]]].
  fold o1 in Herr, Hw, Hn1.
  destruct (runTearDown_framed s (iterErr o1) (iterMach o1) _ eq_refl)
    as [_ [_ [td [Hl [_ Htd]]]]].
  intros Hin. rewrite Hl, Hn1 in Hin.
  assert (seed = seed0) as ->.
  { apply in_app_or in Hin as [Hin | Hin]; [now apply Htd in Hin|].
    apply in_app_or in Hin as [Hin | Hin].
    - now apply iter_events_no_seed in Hin.
    - destruct Hin as [Hin | Hin]; [congruence|].
      now apply setup_log_no_seed in Hin. }
  set (o2 := iterate c0 (Commands s) init (itersOf conf) (cmdPerIterOf conf)
               (maxTriesOf s) (NewRand seed0) m1) in *.
  destruct (runTearDown_framed s (iterErr o1) (iterMach o1) (iterMach o2) Hw)
    as [Hfst [Hworld [td' [Hl1 [Hl2 _]]]]].
  rewrite <- Herr.
  split; [reflexivity|]. split; [now rewrite Hfst|].
  split; [now rewrite Hworld|].
  exists (td' ++ new), (log m1).
  rewrite Hl1, Hl2, Hn1, Hn2, <- !app_assoc. split; reflexivity.
Qed.

End EngineReplay.

(** * Properties of the Real World example *)

Module RealWorldFacts.

Import RealWorld.

Section Facts.

Context {LibErr W R : Type} `{RandSource R} `{Net LibErr W}.
Variable UnixNano : W -> Z.

Abbreviation RWState := RealWorldState.
Abbreviation RWError := (HTTPError LibErr).
Abbreviation RWCommand := (@Command RealWorldState Desc (HTTPError LibErr) W R).
Abbreviation RWOutput := (@CommandOutput RealWorldState Desc (HTTPError LibErr)).
Abbreviation RWEvent := (@Event RealWorldState Desc (HTTPError LibErr) W R).
Abbreviation RWRunError := (@RunError RealWorldState Desc (HTTPError LibErr)).
Abbreviation createUserC := (@createUserCmd LibErr W R _).
Abbreviation getCurrentUserC := (@getCurrentUserCmd LibErr W R _).
Abbreviation loginC := (@loginCmd LibErr W R _).
Abbreviation rwSpec := (@newRealWorldSpec LibErr W R _).

(** ** [doHTTP] *)

(** What [buildRequest] sets on the request it returns. *)
Lemma buildRequest_inv (method u tok : string) (input : option Payload)
  (req : Request) :
  buildRequest LibErr method u tok input = inr req ->
  Method req = method /\ URL req = u
  /\ headerGet "Authorization" (Header req)
     = (if String.eqb tok "" then None else Some ("Token " ++ tok)%string)
  /\ headerGet "Content-Type" (Header req)
     = match input with
       | Some _ => Some "application/json"%string
       | None => None
       end
  /\ (Body req = None <-> input = None).
Proof.
  unfold buildRequest.
  destruct input as [p|].
  - destruct (jsonMarshal LibErr p) as [e|js]; [discriminate|].
    destruct (newRequestErr LibErr method u); [discriminate|].
    destruct (String.eqb tok ""); intros [= <-]; simpl;
      (split; [reflexivity|]); (split; [reflexivity|]);
      (split; [reflexivity|]); (split; [reflexivity|]);
      split; discriminate.
  - destruct (newRequestErr LibErr method u); [discriminate|].
    destruct (String.eqb tok ""); intros [= <-]; simpl;
      (split; [reflexivity|]); (split; [reflexivity|]);
      (split; [reflexivity|]); (split; [reflexivity|]);
      split; reflexivity.
Qed.

(** [doHTTP] hands back a response exactly when the request could be
    built, was answered, its body read, its status was between 200 and
    299 inclusive and its body decoded; an answer with any other status
    is an error naming the method, the URL and the status, whatever its
    body. *)
Theorem doHTTP_status (method u tok : string) (input : option Payload)
  (w w' : W) :
  (forall resp,
     doHTTP LibErr method u tok input w = (inr resp, w')
     <-> exists req status body,
           buildRequest LibErr method u tok input = inr req
           /\ clientDo LibErr req w = (inr (status, inr body), w')
           /\ 200 <= status <= 299
           /\ jsonUnmarshal LibErr body = inr resp)
  /\ (forall req status body,
        buildRequest LibErr method u tok input = inr req ->
        clientDo LibErr req w = (inr (status, inr body), w') ->
        status < 200 \/ 299 < status ->
        doHTTP LibErr method u tok input w
        = (inl (StatusError LibErr method u status), w')).
Proof.
  split.
  - intros resp. unfold doHTTP, sendRequest. split.
    + destruct (buildRequest LibErr method u tok input) as [e|req] eqn:Hb;
        [discriminate|].
      destruct (clientDo LibErr req w) as [[e|[status [e|body]]] w'']
        eqn:Hdo; try discriminate.
      destruct ((status <? 200) || (299 <? status)) eqn:Hst;
        [discriminate|].
      destruct (jsonUnmarshal LibErr body) as [e|resp'] eqn:Hun; [discriminate|].
      intros [= <- <-].
      apply orb_false_iff in Hst as [H1 H2].
      apply Z.ltb_ge in H1. apply Z.ltb_ge in H2.
      exists req, status, body.
      split; [reflexivity|]. split; [exact Hdo|]. split; [lia|].
      assumption.
    + intros (req & status & body & -> & -> & Hrange & ->).
      replace ((status <? 200) || (299 <? status)) with false; auto.
      symmetry. apply orb_false_iff. split; apply Z.ltb_ge; lia.
  - intros req status body Hb Hdo Hout.
    destruct (buildRequest_inv method u tok input req Hb) as [Hm [Hu _]].
    unfold doHTTP, sendRequest. rewrite Hb, Hdo, Hm, Hu.
    replace ((status <? 200) || (299 <? status)) with true; auto.
    symmetry. apply orb_true_iff.
    destruct Hout; [left | right]; apply Z.ltb_lt; assumption.
Qed.

(** ** What the commands send *)

(** The only request the closure of [login] makes is a POST to
    <endpoint>/users/login that carries no Authorization header, whatever
    token the state holds; the error it returns is the error of that
    request, and on success the state takes the user and the token of the
    response. *)
Theorem login_request (st : RWState) (r r2 : R) (w w2 : W)
  (f : @CommandFunc RealWorldState Desc (HTTPError LibErr) W R)
  (r' : R) (w' : W) :
  Gen loginC st r w = (Some f, r2, w2) ->
  let out := fst (fst (f r' w')) in
  let input := LoginInput
                 {| reqLoginUser :=
                      {| loginEmail := Email (createUser st);
                         loginPassword := password st |} |} in
  Description out = DescInput input
  /\ ((exists e,
         buildRequest LibErr "POST" (endpoint st ++ "/users/login") ""
           (Some input) = inl e
         /\ Error out = Some e /\ snd (f r' w') = w')
      \/ (exists req,
            buildRequest LibErr "POST" (endpoint st ++ "/users/login") ""
              (Some input) = inr req
            /\ Method req = "POST"%string
            /\ URL req = (endpoint st ++ "/users/login")%string
            /\ headerGet "Authorization" (Header req) = None
            /\ snd (f r' w') = snd (sendRequest LibErr req w')
            /\ match fst (sendRequest LibErr req w') with
               | inl e => Error out = Some e /\ authToken (NewState out) = ""%string
               | inr resp =>
                   Error out = None
                   /\ loginUser (NewState out) = respUser resp
                   /\ authToken (NewState out) = Token (respUser resp)
               end)).
Proof.
  simpl. destruct (String.eqb (Username (createUser st)) ""); [discriminate|].
  intros [= <- _ _]. cbv zeta. unfold doPOST, doHTTP. simpl.
  destruct (buildRequest LibErr "POST" (endpoint st ++ "/users/login") ""
              (Some _)) as [e|req] eqn:Hb.
  - simpl. split; [reflexivity|]. left. exists e. auto.
  - destruct (buildRequest_inv _ _ _ _ _ Hb) as [Hm [Hu [Ha _]]].
    simpl in Ha.
    destruct (sendRequest LibErr req w') as [[e|resp] w''] eqn:Hsend; simpl.
    + split; [reflexivity|]. right. exists req.
      rewrite Hsend. simpl. auto 10.
    + split; [reflexivity|]. right. exists req.
      rewrite Hsend. simpl. auto 10.
Qed.

(** [getCurrentUser] runs only in a state that holds a token; the only
    request its closure makes is a GET to <endpoint>/user with that token
    in the Authorization header and no body. *)
Theorem getCurrentUser_request (st : RWState) (r r2 : R) (w w2 : W)
  (f : @CommandFunc RealWorldState Desc (HTTPError LibErr) W R)
  (r' : R) (w' : W) :
  Gen getCurrentUserC st r w = (Some f, r2, w2) ->
  let out := fst (fst (f r' w')) in
  authToken st <> ""%string
  /\ Description out = DescToken (authToken st)
  /\ ((exists e,
         buildRequest LibErr "GET" (endpoint st ++ "/user") (authToken st)
           None = inl e
         /\ Error out = Some e /\ snd (f r' w') = w')
      \/ (exists req,
            buildRequest LibErr "GET" (endpoint st ++ "/user") (authToken st)
              None = inr req
            /\ Method req = "GET"%string
            /\ URL req = (endpoint st ++ "/user")%string
            /\ headerGet "Authorization" (Header req)
               = Some ("Token " ++ authToken st)%string
            /\ Body req = None
            /\ snd (f r' w') = snd (sendRequest LibErr req w')
            /\ match fst (sendRequest LibErr req w') with
               | inl e =>
                   Error out = Some e
                   /\ Username (currentUser (NewState out)) = ""%string
               | inr resp =>
                   Error out = None
                   /\ currentUser (NewState out) = respUser resp
               end)).
Proof.
  simpl. destruct (String.eqb (authToken st) "") eqn:Htok; [discriminate|].
  apply String.eqb_neq in Htok.
  intros [= <- _ _]. cbv zeta. unfold doGET, doHTTP. simpl.
  split; [exact Htok|].
  destruct (buildRequest LibErr "GET" (endpoint st ++ "/user")
              (authToken st) None) as [e|req] eqn:Hb.
  - simpl. split; [reflexivity|]. left. exists e. auto.
  - destruct (buildRequest_inv _ _ _ _ _ Hb) as [Hm [Hu [Ha [_ Hbody]]]].
    apply String.eqb_neq in Htok. rewrite Htok in Ha.
    assert (Body req = None) as Hnone by (apply Hbody; reflexivity).
    destruct (sendRequest LibErr req w') as [[e|resp] w''] eqn:Hsend; simpl.
    + split; [reflexivity|]. right. exists req.
      rewrite Hsend. simpl. auto 10.
    + split; [reflexivity|]. right. exists req.
      rewrite Hsend. simpl. auto 10.
Qed.

(** [createUser] never declines and leaves the random source alone; its
    input is what [randNewUser] draws; the only request its closure makes
    is a POST of that input to <endpoint>/users, with the Authorization
    header exactly when the state holds a token; on failure the state
    remembers no password, on success it takes the user of the response
    and the password drawn. *)
Theorem createUser_request (st : RWState) (r : R) (w : W) :
  exists f,
    Gen createUserC st r w = (Some f, r, snd (randNewUser LibErr w))
    /\ forall r' w',
         let out := fst (fst (f r' w')) in
         let input :=
           NewUserInput {| reqNewUser := fst (randNewUser LibErr w) |} in
         Description out = DescInput input
         /\ ((exists e,
                buildRequest LibErr "POST" (endpoint st ++ "/users")
                  (authToken st) (Some input) = inl e
                /\ Error out = Some e /\ snd (f r' w') = w')
             \/ (exists req,
                   buildRequest LibErr "POST" (endpoint st ++ "/users")
                     (authToken st) (Some input) = inr req
                   /\ Method req = "POST"%string
                   /\ URL req = (endpoint st ++ "/users")%string
                   /\ headerGet "Content-Type" (Header req)
                      = Some "application/json"%string
                   /\ headerGet "Authorization" (Header req)
                      = (if String.eqb (authToken st) "" then None
                         else Some ("Token " ++ authToken st)%string)
                   /\ snd (f r' w') = snd (sendRequest LibErr req w')
                   /\ match fst (sendRequest LibErr req w') with
                      | inl e =>
                          Error out = Some e
                          /\ password (NewState out) = ""%string
                          /\ createUser (NewState out) = createUser st
                      | inr resp =>
                          Error out = None
                          /\ createUser (NewState out) = respUser resp
                          /\ password (NewState out)
                             = newPassword (fst (randNewUser LibErr w))
                      end)).
Proof.
  simpl. destruct (randNewUser LibErr w) as [nu w1]. simpl.
  eexists. split; [reflexivity|].
  intros r' w'. cbv zeta. unfold doPOST, doHTTP. simpl.
  destruct (buildRequest LibErr "POST" (endpoint st ++ "/users")
              (authToken st) (Some _)) as [e|req] eqn:Hb.
  - simpl. split; [reflexivity|]. left. exists e. auto.
  - destruct (buildRequest_inv _ _ _ _ _ Hb) as [Hm [Hu [Ha [Hc _]]]].
    destruct (sendRequest LibErr req w') as [[e|resp] w''] eqn:Hsend; simpl.
    + split; [reflexivity|]. right. exists req.
      rewrite Hsend. simpl. auto 12.
    + split; [reflexivity|]. right. exists req.
      rewrite Hsend. simpl. auto 12.
Qed.

(** ** The commands under the engine *)

Lemma rwSpec_commands (ep : string) (c : RWCommand) :
  In c (Commands (rwSpec ep)) ->
  c = createUserC \/ c = getCurrentUserC \/ c = loginC.
Proof. simpl. intros [<- | [<- | [<- | []]]]; auto. Qed.

(** In the state [InitState] returns, only [createUser] can run. *)
Lemma initial_declines (ep : string) (r : R) (w : W) :
  fst (fst (Gen getCurrentUserC (initialState ep) r w)) = None
  /\ fst (fst (Gen loginC (initialState ep) r w)) = None.
Proof. split; reflexivity. Qed.

Lemma initial_consistent (ep : string) : consistent ep (initialState ep).
Proof.
  unfold consistent, initialState. simpl.
  split; [reflexivity|]. split; [congruence | tauto].
Qed.

(** A step that records no error keeps the state [consistent]. *)
Lemma consistent_step (ep : string) (c : RWCommand) (st : RWState)
  (out : RWOutput) :
  In c (Commands (rwSpec ep)) ->
  consistent ep st ->
  passes c st out ->
  consistent ep (NewState out).
Proof.
  intros Hin [Hep [Htok Hpw]] [(r & w & f & r' & w' & Hgen & Hout) [Herr Hver]].
  destruct (rwSpec_commands ep c Hin) as [-> | [-> | ->]].
  - (* createUser *)
    simpl in Hgen. destruct (randNewUser LibErr w) as [nu w1].
    simpl in Hgen. injection Hgen as <-.
    specialize (Hver _ eq_refl). cbv zeta in Hout.
    destruct (doPOST LibErr _ _ _ w') as [[e|resp] w''];
      simpl in Hout; subst out; simpl in *; [discriminate|].
    apply andb_true_iff in Hver as [Hu Hp].
    apply negb_true_iff in Hu. apply negb_true_iff in Hp.
    apply String.eqb_neq in Hu. apply String.eqb_neq in Hp.
    unfold consistent. simpl.
    split; [exact Hep|]. split; [exact Htok | tauto].
  - (* getCurrentUser *)
    simpl in Hgen.
    destruct (String.eqb (authToken st) ""); [discriminate|].
    simpl in Hgen. injection Hgen as <-. cbv zeta in Hout.
    destruct (doGET LibErr _ _ w') as [[e|resp] w''];
      simpl in Hout; subst out; simpl in *; [discriminate|].
    unfold consistent. simpl.
    split; [exact Hep|]. split; [exact Htok | exact Hpw].
  - (* login *)
    simpl in Hgen.
    destruct (String.eqb (Username (createUser st)) "") eqn:Hcu;
      [discriminate|].
    apply String.eqb_neq in Hcu.
    simpl in Hgen. injection Hgen as <-.
    specialize (Hver _ eq_refl). cbv zeta in Hout.
    destruct (doPOST LibErr _ _ _ w') as [[e|resp] w''];
      simpl in Hout; subst out; simpl in *; [discriminate|].
    apply andb_true_iff in Hver as [Hu _].
    apply String.eqb_eq in Hu.
    unfold consistent. simpl.
    split; [exact Hep|]. split; [|exact Hpw].
    intros _. split; [reflexivity | congruence].
Qed.

(** In a [consistent] state, a command that returns an error is rejected
    by its own verification. *)
Lemma failure_rejected (ep : string) (c : RWCommand) (st : RWState)
  (out : RWOutput) (e : RWError) :
  In c (Commands (rwSpec ep)) ->
  consistent ep st ->
  (exists r w f r' w',
     fst (fst (Gen c st r w)) = Some f /\ fst (fst (f r' w')) = out) ->
  Error out = Some e ->
  exists vf, Verify c = Some vf /\ vf st (NewState out) = false.
Proof.
  intros Hin [Hep [Htok Hpw]] (r & w & f & r' & w' & Hgen & Hout) Herr.
  destruct (rwSpec_commands ep c Hin) as [-> | [-> | ->]];
    (eexists; split; [reflexivity|]).
  - simpl in Hgen. destruct (randNewUser LibErr w) as [nu w1].
    simpl in Hgen. injection Hgen as <-. cbv zeta in Hout.
    destruct (doPOST LibErr _ _ _ w') as [[e'|resp] w''];
      simpl in Hout; subst out; simpl in *; [|discriminate].
    apply andb_false_r.
  - simpl in Hgen.
    destruct (String.eqb (authToken st) "") eqn:Hat; [discriminate|].
    apply String.eqb_neq in Hat.
    simpl in Hgen. injection Hgen as <-. cbv zeta in Hout.
    destruct (doGET LibErr _ _ w') as [[e'|resp] w''];
      simpl in Hout; subst out; simpl in *; [|discriminate].
    apply String.eqb_neq. apply (Htok Hat).
  - simpl in Hgen.
    destruct (String.eqb (Username (createUser st)) ""); [discriminate|].
    simpl in Hgen. injection Hgen as <-. cbv zeta in Hout.
    destruct (doPOST LibErr _ _ _ w') as [[e'|resp] w''];
      simpl in Hout; subst out; simpl in *; [|discriminate].
    apply andb_false_r.
Qed.

Lemma rwSpec_good (ep : string) (conf : @SpecConf R) (w : W) :
  Forall (fun ev : RWEvent =>
            produced (Commands (rwSpec ep)) ev
            /\ respects (consistent ep) ev)
    (log (snd (Run UnixNano (rwSpec ep) conf w))).
Proof.
  apply Run_good.
  - intros init [= <-]. apply initial_consistent.
  - intros c st out. apply consistent_step.
Qed.

(** Whenever Gen or a command of the example is called, the state is
    [consistent]: its endpoint is the configured one, a token it holds is
    the token of the logged-in user, whose name is not empty, and a
    created user is remembered exactly when a password is. *)
Theorem realworld_states_consistent (ep : string) (conf : @SpecConf R)
  (w : W) :
  Forall (respects (consistent ep))
    (log (snd (Run UnixNano (rwSpec ep) conf w))).
Proof.
  eapply Forall_impl; [|apply rwSpec_good].
  intros ev [_ Hr]. exact Hr.
Qed.

(** The first command of every iteration is [createUser], run from the
    initial state: nothing else can run there. *)
Theorem realworld_first_command (ep : string) (conf : @SpecConf R) (w : W)
  (iter : Z) (c : RWCommand) (st : RWState) (out : RWOutput) :
  In (EvExec iter 0 c st out)
     (log (snd (Run UnixNano (rwSpec ep) conf w))) ->
  c = createUserC /\ st = initialState ep.
Proof.
  intros Hin.
  pose proof (rwSpec_good ep conf w) as Hgood.
  rewrite Forall_forall in Hgood.
  destruct (Hgood _ Hin) as [[Hc (r & w0 & f & r' & w' & Hgen & _)] _].
  apply in_split in Hin as [post [pre Hlog]].
  pose proof (Run_threaded UnixNano (rwSpec ep) conf w
                (fun _ => initialState ep) eq_refl) as Hthr.
  rewrite Hlog in Hthr. apply threaded_split in Hthr as [Hst Hstep].
  rewrite stepsAfter_zero in Hst by auto. subst st.
  split; [|reflexivity].
  destruct (rwSpec_commands ep c Hc) as [-> | [-> | ->]]; auto;
    discriminate.
Qed.

(** What holds when [login] and [getCurrentUser] are run: [login] runs
    only once a user was created, and submits that user's e-mail with a
    password that is not empty; [getCurrentUser] runs only with a token,
    which is the token of the logged-in user. *)
Theorem realworld_preconditions (ep : string) (conf : @SpecConf R) (w : W)
  (iter step : Z) (c : RWCommand) (st : RWState) (out : RWOutput) :
  In (EvExec iter step c st out)
     (log (snd (Run UnixNano (rwSpec ep) conf w))) ->
  (Name c = "login"%string ->
   Username (createUser st) <> ""%string
   /\ password st <> ""%string
   /\ Description out
      = DescInput (LoginInput
                     {| reqLoginUser :=
                          {| loginEmail := Email (createUser st);
                             loginPassword := password st |} |}))
  /\ (Name c = "getCurrentUser"%string ->
      authToken st <> ""%string
      /\ Token (loginUser st) = authToken st
      /\ Username (loginUser st) <> ""%string).
Proof.
  intros Hin.
  pose proof (rwSpec_good ep conf w) as Hgood.
  rewrite Forall_forall in Hgood.
  destruct (Hgood _ Hin)
    as [[Hc (r & w0 & f & r' & w' & Hgen & Hout)] [Hep [Htok Hpw]]].
  destruct (rwSpec_commands ep c Hc) as [-> | [-> | ->]];
    (split; [intros Hname | intros Hname]); try discriminate.
  - simpl in Hgen.
    destruct (String.eqb (authToken st) "") eqn:Hat; [discriminate|].
    apply String.eqb_neq in Hat. destruct (Htok Hat). auto.
  - simpl in Hgen.
    destruct (String.eqb (Username (createUser st)) "") eqn:Hcu;
      [discriminate|].
    apply String.eqb_neq in Hcu.
    simpl in Hgen. injection Hgen as <-. cbv zeta in Hout.
    split; [exact Hcu|]. split; [now apply Hpw|].
    destruct (doPOST LibErr _ _ _ w') as [[e|resp] w''];
      simpl in Hout; subst out; reflexivity.
Qed.

(** A run of the example never returns a command-execution error (nor a
    configuration, setup or teardown error): whenever a request fails,
    the verification of the command fails too, and the error returned is
    the verification error. *)
Theorem realworld_failures_are_verify_errors (ep : string)
  (conf : @SpecConf R) (w : W) :
  fst (fst (Run UnixNano (rwSpec ep) conf w)) = itersOf conf
  /\ match snd (fst (Run UnixNano (rwSpec ep) conf w)) with
     | None | Some (ErrVerify _ _ _ _ _ _) => True
     | Some _ => False
     end.
Proof.
  pose proof (rwSpec_good ep conf w) as Hgood.
  revert Hgood.
  rewrite (Run_valid UnixNano (rwSpec ep) conf w createUserC
             [getCurrentUserC; loginC] (fun _ => initialState ep)
             eq_refl eq_refl eq_refl).
  cbv zeta. unfold runTearDown. simpl TearDown. cbv iota. simpl fst.
  simpl snd.
  destruct (runIterations_shape UnixNano (rwSpec ep) conf createUserC
              (fun _ => initialState ep) (startOf w) eq_refl) as [Hrec _].
  set (o := runIterations UnixNano (rwSpec ep) conf createUserC
              (fun _ => initialState ep) (startOf w)) in *.
  intros Hgood. split; [reflexivity|].
  assert (Forall (fun ev : RWEvent =>
                    produced (Commands (rwSpec ep)) ev
                    /\ respects (consistent ep) ev) (log (iterMach o)))
    as Hgood' by exact Hgood.
  clear Hgood. rewrite Forall_forall in Hgood'.
  destruct (iterErr o) as [e|]; [|exact I].
  inversion Hrec as [ | i' k' c st out x l Hx Hve Hcl He Hl
                    | i' k' c st out l Hve Hcl He Hl]; [|exact I].
  destruct (Hgood' (EvExec i' k' c st out)) as [[Hc Hprod] Hcons].
  { rewrite <- Hl. apply in_or_app. right. left. reflexivity. }
  destruct (failure_rejected ep c st out x Hc Hcons Hprod Hx)
    as [vf [Hvf Hfalse]].
  unfold verifyEvents in Hve. rewrite Hvf, Hfalse in Hve. discriminate.
Qed.

End Facts.

End RealWorldFacts.

(** ** The further properties on concrete runs *)

Lemma Run_nil_complete_witness :
  count isInit (log (snd (Run clockOf mixedSpec (confOf 7 2 3) 0))) = 2%nat
  /\ forallb (fun ev => negb (isFailure ev))
       (log (snd (Run clockOf mixedSpec (confOf 7 2 3) 0))) = true.
Proof.
  apply (Run_nil_complete clockOf mixedSpec (confOf 7 2 3) 0).
  reflexivity.
Defined.

Lemma Run_error_located_witness :
  0 <= 0 < 3
  /\ (exists j,
        errStep (@ErrCmd Z string string 0 1 "fail" "fail"%string 1
                   "boom"%string) = Some j /\ 0 <= j < 20)
  /\ count isInit (log (snd (Run clockOf failSpec (confOf 7 3 0) 0)))
     = 1%nat.
Proof.
  apply (Run_error_located clockOf failSpec (confOf 7 3 0) 0
           (ErrCmd 0 1 "fail" "fail"%string 1 "boom"%string) 0).
  - reflexivity.
  - reflexivity.
Defined.

Lemma Run_threads_state_witness :
  1 = stateAfter 0
        (skipn 3 (log (snd (Run clockOf driftSpec (confOf 7 5 2) 0))))
  /\ 1 = stepsAfter
           (skipn 3 (log (snd (Run clockOf driftSpec (confOf 7 5 2) 0)))).
Proof.
  destruct (Run_threads_state clockOf driftSpec (confOf 7 5 2) 0
              (fun _ => 0)
              (firstn 2 (log (snd (Run clockOf driftSpec (confOf 7 5 2) 0))))
              (skipn 3 (log (snd (Run clockOf driftSpec (confOf 7 5 2) 0))))
              (EvExec 0 1 cmdDrift 1 driftOut)) as [_ Hexec].
  - reflexivity.
  - vm_compute. reflexivity.
  - exact (Hexec 0 1 cmdDrift 1 driftOut eq_refl).
Defined.

Lemma Run_state_invariant_witness :
  Forall (respects (fun st : Z => 0 <= st))
    (log (snd (Run clockOf mixedSpec (confOf 7 2 3) 0))).
Proof.
  apply (Run_state_invariant clockOf mixedSpec (confOf 7 2 3) 0
           (fun st : Z => 0 <= st)).
  - intros init Hinit. injection Hinit as <-. simpl. lia.
  - intros c st out [<- | [<- | []]] Hst
      [(r & w & f & r' & w' & Hgen & Hout) _]; simpl in Hgen.
    + injection Hgen as <-. simpl in Hout. subst out. simpl. lia.
    + discriminate.
Defined.


Lemma Run_all_pass_witness :
  fst (Run clockOf passSpec (confOf 7 3 4) 0) = (3, None)
  /\ count isGen (log (snd (Run clockOf passSpec (confOf 7 3 4) 0)))
     = count isExec (log (snd (Run clockOf passSpec (confOf 7 3 4) 0))).
Proof.
  destruct (Run_all_pass clockOf passSpec (confOf 7 3 4) 0)
    as [_ [Hcount Hrun]].
  - intros c [<- | [<- | []]] st r w; eexists;
      (split; [reflexivity|]); intros r' w'; simpl;
      (split; [reflexivity|]); intros vf Hvf; injection Hvf as <-;
      apply Z.eqb_refl.
  - split; [|exact Hcount]. apply Hrun.
    + discriminate.
    + discriminate.
    + reflexivity.
    + intros td w' Htd. injection Htd as <-. reflexivity.
Defined.

Lemma Run_one_command_per_iteration_witness :
  count isExec (log (snd (Run clockOf failSpec (confOf 7 3 1) 0)))
  = count isInit (log (snd (Run clockOf failSpec (confOf 7 3 1) 0))).
Proof.
  apply (Run_one_command_per_iteration clockOf failSpec (confOf 7 3 1) 0).
  - intros c [<- | [<- | []]] st r w; discriminate.
  - reflexivity.
Defined.

Lemma Run_replay_printed_seed_witness :
  fst (Run clockOf mixedSpec
         {| Rand := Some (NewRand 1700000001);
            Iterations := 2; MaxCmdPerIter := 3 |} 0)
  = fst (Run clockOf mixedSpec unseededConf 0).
Proof.
  destruct (Run_replay_printed_seed clockOf mixedSpec unseededConf 0
              1700000001) as [_ [Hres _]].
  - pick_event.
  - exact Hres.
Defined.

Lemma doHTTP_status_witness :
  RealWorld.doHTTP string "GET" "http://127.0.0.1:8585/api/user" "t0k3n"
    None 10
  = (inl (RealWorld.StatusError string "GET"
            "http://127.0.0.1:8585/api/user" 500), 11).
Proof.
  destruct (RealWorldFacts.doHTTP_status (LibErr := string)
              "GET" "http://127.0.0.1:8585/api/user" "t0k3n" None 10 11)
    as [_ Hstatus].
  eapply Hstatus.
  - reflexivity.
  - reflexivity.
  - right. reflexivity.
Defined.

Lemma login_request_witness :
  exists f,
    Gen (RealWorld.loginCmd string) toyCreated 0 0 = (Some f, 0, 0)
    /\ Description (fst (fst (f 0 0)))
       = RealWorld.DescInput (RealWorld.LoginInput toyLogin).
Proof.
  eexists. split; [reflexivity|].
  eapply (RealWorldFacts.login_request (LibErr := string) toyCreated 0 0 0 0).
  reflexivity.
Defined.

Lemma getCurrentUser_request_witness :
  exists f,
    Gen (RealWorld.getCurrentUserCmd string) toyLoggedIn 0 0 = (Some f, 0, 0)
    /\ RealWorld.authToken toyLoggedIn <> ""%string
    /\ Description (fst (fst (f 0 0))) = RealWorld.DescToken "t0k3n".
Proof.
  eexists. split; [reflexivity|].
  destruct (RealWorldFacts.getCurrentUser_request (LibErr := string)
              toyLoggedIn 0 0 0 0 _ 0 0 eq_refl) as [Htok [Hdesc _]].
  split; [exact Htok | exact Hdesc].
Defined.

Lemma realworld_first_command_witness :
  In (EvExec 0 0 (RealWorld.createUserCmd string)
        (RealWorld.initialState toyEndpoint) toyCreateOut)
     (log (snd (Run clockOf toySpec (confOf 3 1 2) 0)))
  /\ @RealWorld.createUserCmd string Z Z toyNet
     = RealWorld.createUserCmd string
  /\ RealWorld.initialState toyEndpoint = RealWorld.initialState toyEndpoint.
Proof.
  split; [apply (nth_error_In _ 4); reflexivity|].
  apply (RealWorldFacts.realworld_first_command clockOf toyEndpoint
           (confOf 3 1 2) 0 0 (RealWorld.createUserCmd string)
           (RealWorld.initialState toyEndpoint) toyCreateOut).
  apply (nth_error_In _ 4). reflexivity.
Defined.

Lemma realworld_preconditions_witness :
  RealWorld.Username (RealWorld.createUser toyCreated) <> ""%string
  /\ RealWorld.password toyCreated <> ""%string
  /\ Description toyLoginOut
     = RealWorld.DescInput
         (RealWorld.LoginInput
            {| RealWorld.reqLoginUser :=
                 {| RealWorld.loginEmail :=
                      RealWorld.Email (RealWorld.createUser toyCreated);
                    RealWorld.loginPassword :=
                      RealWorld.password toyCreated |} |}).
Proof.
  destruct (RealWorldFacts.realworld_preconditions clockOf toyEndpoint
              (confOf 3 1 2) 0 0 1 (RealWorld.loginCmd string) toyCreated
              toyLoginOut) as [Hlogin _].
  - apply (nth_error_In _ 1). reflexivity.
  - apply Hlogin. reflexivity.
Defined.
